(** * robotally: review-vote aggregation webhook

    A shallow embedding of [robotally.go] (with [auth.go] and the event
    types): the comment scanner and aggregator, the report renderer and the
    webhook handler, followed by the properties established about them.

    Go strings are byte strings and are modelled by [string]; Go maps are
    modelled by [gmap]/[gset], and every [range] over a map takes the order
    in which the runtime happened to visit it as an explicit argument. *)

From Stdlib Require Import ZArith Ascii String DecimalString.
From stdpp Require Import gmap strings list sorting.

(** ** Configuration ([auth.go] and the [disabled] table) *)

Definition githubUser : string := "robotally".
Definition githubToken : string := "".

(** [var disabled = map[string]bool{":+1": true, ":-1": true}] *)
Definition disabled : gmap string bool :=
  <[":+1" := true]> (<[":-1" := true]> ∅).

(** Indexing a Go [map[string]bool] with an absent key yields [false]. *)
Definition disabled_at (emoji : string) : bool :=
  default false (disabled !! emoji).

(** ** Text primitives of the Go library used by the source *)

(** [strings.Contains s sub]. *)
Fixpoint Contains (s sub : string) : bool :=
  String.prefix sub s ||
  match s with
  | EmptyString => false
  | String _ s' => Contains s' sub
  end.

(** The character class [[a-z0-9_]]. *)
Definition emoji_char (c : ascii) : bool :=
  let n := nat_of_ascii c in
  ((97 <=? n) && (n <=? 122) || (48 <=? n) && (n <=? 57) || (n =? 95)).

(** Length of the longest run of class characters at the head of [s]. *)
Fixpoint run_length (s : string) : nat :=
  match s with
  | String c s' => if emoji_char c then S (run_length s') else 0
  | EmptyString => 0
  end.

(** The class characters at the head of a string. *)
Fixpoint run_of (s : string) : string :=
  match s with
  | String c s' => if emoji_char c then String c (run_of s') else EmptyString
  | EmptyString => EmptyString
  end.

(** Does [":[a-z0-9_]+:"] match at the very start of [s]?  The class does not
    contain the colon, so the greedy run is the only candidate; the answer is
    the length of the run between the two colons. *)
Definition match_here (s : string) : option nat :=
  match s with
  | String c rest =>
      let n := run_length rest in
      if Ascii.eqb c ":" && (0 <? n)
      then match String.get n rest with
           | Some c' => if Ascii.eqb c' ":" then Some n else None
           | None => None
           end
      else None
  | EmptyString => None
  end.

(** [regexp.MustCompile(":[a-z0-9_]+:").FindAllString(s, -1)]: successive
    leftmost matches, each search resuming right after the previous match.
    [skip] counts the characters of the current match still to step over. *)
Fixpoint find_all (skip : nat) (s : string) : list string :=
  match s with
  | EmptyString => []
  | String _ rest =>
      match skip with
      | S k => find_all k rest
      | O =>
          match match_here s with
          | Some n => String.substring 0 (n + 2) s :: find_all (n + 1) rest
          | None => find_all 0 rest
          end
      end
  end.

Definition FindAllString (s : string) : list string := find_all 0 s.

(** The language of the pattern [":[a-z0-9_]+:"]. *)
Definition emoji_code (code : string) : Prop :=
  ∃ run, code = ":" +:+ run +:+ ":" ∧ run ≠ "" ∧
         Forall (λ c, emoji_char c = true) (list_ascii_of_string run).

(** ** Comments *)

(** The fields of [github.IssueComment] the source reads.  The list returned
    by the service carries non-nil [ID], [User] and [User.Login]. *)
Record IssueComment := {
  ID : Z;
  Body : string;
  User_Login : string;
}.

(** ** The aggregator *)

Section Aggregator.

(** [comment.String()]: the textual rendering of a whole comment value
    provided by the GitHub client library.  It is not part of this
    repository and is kept abstract. *)
Variable comment_String : IssueComment → string.

(** The [if]/[else if] on the two vote tokens. *)
Definition tally_vote (votes : gmap string bool) (comment : IssueComment)
    : gmap string bool :=
  if Contains (comment_String comment) ":+1:" then
    <[User_Login comment := true]> votes
  else if Contains (comment_String comment) ":-1:" then
    <[User_Login comment := false]> votes
  else votes.

(** Body of the loop over the emojis found in one comment. *)
Definition tally_emoji (login : string)
    (reactions : gmap string (gset string)) (emoji : string)
    : gmap string (gset string) :=
  if negb (disabled_at emoji) then
    <[emoji := {[login]} ∪ default ∅ (reactions !! emoji)]> reactions
  else reactions.

(** Body of the loop over the comments. *)
Definition aggregate_step
    (acc : gmap string bool * gmap string (gset string))
    (comment : IssueComment) : gmap string bool * gmap string (gset string) :=
  if decide (User_Login comment = githubUser) then acc
  else (tally_vote acc.1 comment,
        foldl (tally_emoji (User_Login comment)) acc.2
              (FindAllString (comment_String comment))).

Definition aggregate (comments : list IssueComment)
    : gmap string bool * gmap string (gset string) :=
  foldl aggregate_step (∅, ∅) comments.

End Aggregator.

(** ** The report renderer *)

Definition nl : string := String (ascii_of_nat 10) "".

(** ["@"+user] *)
Definition mention (user : string) : string := "@" +:+ user.

(** [sort.Strings]: ascending byte-wise lexicographic order.  A total
    antisymmetric order has exactly one sorted arrangement of a list, so the
    choice of sorting algorithm is immaterial (see [sort_Strings_unique]). *)
Definition sort_Strings (l : list string) : list string :=
  merge_sort String.le l.

(** [strings.Join(l, " ")] and the [%d] verb of [fmt.Sprintf]. *)
Definition Join (l : list string) : string := String.concat " " l.
Definition decimal (n : nat) : string := NilEmpty.string_of_uint (Nat.to_uint n).

(** The loop over [votes]; the argument lists the entries in visit order. *)
Definition collect_votes (votes : list (string * bool))
    : list string * list string :=
  foldl (λ (acc : list string * list string) (vote : string * bool),
           if vote.2 then (acc.1 ++ [mention vote.1], acc.2)
           else (acc.1, acc.2 ++ [mention vote.1]))
        ([], []) votes.

(** The two sides of the partition of the votes. *)
Definition approves (vote : string * bool) : Prop := vote.2 = true.
Definition rejects (vote : string * bool) : Prop := vote.2 = false.

Global Instance approves_dec vote : Decision (approves vote).
Proof. unfold approves. apply _. Defined.
Global Instance rejects_dec vote : Decision (rejects vote).
Proof. unfold rejects. apply _. Defined.

Definition up_list (votes : list (string * bool)) : list string :=
  sort_Strings (collect_votes votes).1.
Definition down_list (votes : list (string * bool)) : list string :=
  sort_Strings (collect_votes votes).2.

(** [reactions[emoji]] and [len(reactions[emoji])]; an absent key reads as
    the nil slice. *)
Definition users_of (reactions : gmap string (list string)) (emoji : string)
    : list string :=
  default [] (reactions !! emoji).
Definition count (reactions : gmap string (list string)) (emoji : string)
    : nat :=
  length (users_of reactions emoji).

(** The first loop over [emojis]: every code with its users in visit order.
    [sort.Strings] sorts the slice stored under the code in place; for an
    empty user set nothing was appended and the code stays absent. *)
Definition gather_one (reactions : gmap string (list string))
    (entry : string * list string) : gmap string (list string) :=
  let reactions :=
    foldl (λ (r : gmap string (list string)) (user : string),
             <[entry.1 := users_of r entry.1 ++ [mention user]]> r)
          reactions entry.2 in
  match reactions !! entry.1 with
  | Some users => <[entry.1 := sort_Strings users]> reactions
  | None => reactions
  end.

Definition gather (emojis : list (string * list string))
    : gmap string (list string) :=
  foldl gather_one ∅ emojis.

(** The map the first loop builds, read off the reaction mapping itself. *)
Definition gathered (emojis : gmap string (gset string))
    : gmap string (list string) :=
  omap (λ users : gset string,
          match elements users with
          | [] => None
          | visit => Some (sort_Strings (mention <$> visit))
          end) emojis.

(** [emojis[i], emojis[j] = emojis[j], emojis[i]] *)
Definition swap (emojis : list string) (i j : nat) : list string :=
  match emojis !! i, emojis !! j with
  | Some x, Some y => <[i := y]> (<[j := x]> emojis)
  | _, _ => emojis
  end.

(** Body of the inner loop [for j, second := range emojis[i+1:]].  The state
    is the slice together with the local variable [first]; [second] is read
    from the slice at position [i+1+j], the swap is done at positions [i]
    and [j] as written in the source. *)
Definition compare_swap (reactions : gmap string (list string)) (i : nat)
    (st : list string * string) (j : nat) : list string * string :=
  let second := default "" (st.1 !! (i + 1 + j)) in
  if (count reactions st.2 <? count reactions second)
  then (swap st.1 i j, second)
  else st.

(** Body of the outer loop [for i, first := range emojis]. *)
Definition order_pass (reactions : gmap string (list string))
    (emojis : list string) (i : nat) : list string :=
  (foldl (compare_swap reactions i)
         (emojis, default "" (emojis !! i))
         (seq 0 (length emojis - (i + 1)))).1.

Definition order_by_frequency (reactions : gmap string (list string))
    (emojis : list string) : list string :=
  foldl (order_pass reactions) emojis (seq 0 (length emojis)).

(** The rows of the reaction table, top to bottom: [order] is the order in
    which the second loop visits the keys of [reactions]. *)
Definition reaction_rows (emojis : list (string * list string))
    (order : list string) : list (string * list string) :=
  let reactions := gather emojis in
  (λ emoji, (emoji, users_of reactions emoji))
    <$> order_by_frequency reactions order.

Definition render_row (row : string * list string) : string :=
  "| " +:+ row.1 +:+ " | " +:+ Join row.2 +:+ " |" +:+ nl.

(** The text printed for the vote table and for the reaction table. *)
Definition vote_table (up down : list string) : string :=
  "| Vote | Count | Reviewers |" +:+ nl
    +:+ "| :---: | :---: | :---: |" +:+ nl
    +:+ "| :+1: | " +:+ decimal (length up) +:+ " | " +:+ Join up +:+ " |" +:+ nl
    +:+ "| :-1: | " +:+ decimal (length down) +:+ " | " +:+ Join down +:+ " |".

Definition reaction_table (rows : list (string * list string)) : string :=
  nl +:+ nl +:+ "| Reaction | Users |" +:+ nl
     +:+ "| :---: | :---: |" +:+ nl
     +:+ String.concat "" (render_row <$> rows).

(** [status]: [votes] and [emojis] list the entries of the two map arguments
    in the order the runtime visits them, [order] does the same for the keys
    of the local map [reactions], and [now] is the formatted current time. *)
Definition status (warning : string) (votes : list (string * bool))
    (emojis : list (string * list string)) (order : list string)
    (now : string) : string :=
  let report := "" in
  let report :=
    if 0 <? String.length warning
    then report +:+ ":exclamation: " +:+ warning +:+ " :exclamation:" +:+ nl +:+ nl
    else report in
  let up := up_list votes in
  let down := down_list votes in
  let report := report +:+ vote_table up down in
  let report :=
    if 0 <? length emojis
    then report +:+ reaction_table (reaction_rows emojis order)
    else report in
  report +:+ nl +:+ nl +:+ "_Updated: " +:+ now +:+ "_".

(** *** Visit orders of a [range] over a map

    The runtime visits every entry exactly once, in an unspecified order. *)
Definition visits_votes (votes : gmap string bool)
    (visit : list (string * bool)) : Prop :=
  visit ≡ₚ map_to_list votes.

Definition visits_emojis (emojis : gmap string (gset string))
    (visit : list (string * list string)) : Prop :=
  ∃ entries, entries ≡ₚ map_to_list emojis ∧
    Forall2 (λ (entry : string * gset string) (seen : string * list string),
               seen.1 = entry.1 ∧ seen.2 ≡ₚ elements entry.2)
            entries visit.

Definition visits_keys (reactions : gmap string (list string))
    (visit : list string) : Prop :=
  visit ≡ₚ (map_to_list reactions).*1.

(** The report table is in descending order of user count. *)
Definition descending (rows : list (string * list string)) : Prop :=
  ∀ k earlier later,
    rows !! k = Some earlier → rows !! S k = Some later →
    length later.2 ≤ length earlier.2.

(** ** Sample data *)

(** A rendering in the style of the client library, used in examples. *)
Definition dquote : string := String (ascii_of_nat 34) "".
Definition sample_String (c : IssueComment) : string :=
  "github.IssueComment{ID:" +:+ decimal (Z.to_nat (ID c))
    +:+ ", Body:" +:+ dquote +:+ Body c +:+ dquote
    +:+ ", User:github.User{Login:" +:+ dquote +:+ User_Login c +:+ dquote +:+ "}}".

Definition sample_history : list IssueComment :=
  [ {| ID := 1; Body := "nice :+1: :tada: :rocket:"; User_Login := "alice" |};
    {| ID := 2; Body := ":rocket:"; User_Login := "bob" |} ].

Definition both_tokens_comment : IssueComment :=
  {| ID := 4; Body := "hmm :-1: no wait :+1:"; User_Login := "carol" |}.

(** Two codes used by one user each. *)
Definition tied_reactions : gmap string (gset string) :=
  <[":tada:" := {["alice"]}]> (<[":rocket:" := {["alice"]}]> ∅).

Definition tied_visit : list (string * list string) :=
  [(":tada:", ["alice"]); (":rocket:", ["alice"])].

Definition sample_reactions : gmap string (gset string) :=
  <[":tada:" := {["alice"]}]> (<[":rocket:" := {["alice"; "bob"]}]> ∅).

Definition sample_visit : list (string * list string) :=
  [(":tada:", ["alice"]); (":rocket:", ["alice"; "bob"])].

Definition sample_now : string := "Sat Oct 31 05:55:00 UTC 2026".

Definition sample_votes : gmap string bool :=
  <["alice" := true]> (<["bob" := false]> ∅).

(** ** Webhook events (the JSON-decoded notification) *)

Record User := { Login : string }.
Record Issue := { Issue_Number : Z }.
Record Endpoint := { Branch : string }.
Record PullRequest := { PullRequest_Number : Z; Base : option Endpoint }.
Record Repository := { Name : string; Owner : option User }.

(** Pointer-typed fields are [option]s: [None] is the nil pointer. *)
Record Event := {
  Action : string;
  Event_Issue : option Issue;
  Event_PullRequest : option PullRequest;
  Event_Repository : option Repository;
  Sender : option User;
}.

(** ** The handler as a conversation with the comment service *)

(** What the HTTP caller observes: a plain return (status 200, empty body),
    an [http.Error] with message and status code, or a run-time panic caused
    by dereferencing a nil pointer. *)
Inductive Reply :=
| OK
| Error (message : string) (code : Z)
| Panic.

Definition StatusBadRequest : Z := 400.
Definition StatusMethodNotAllowed : Z := 405.
Definition StatusInternalServerError : Z := 500.

(** A run of the handler: it ends with a reply, or performs one call of the
    GitHub client and continues with the answer.  An error answer carries
    the text [%v] prints for it. *)
Inductive Handling :=
| Done (reply : Reply)
| CreateComment (owner repo : string) (number : Z) (body : string)
    (next : option string → Handling)
| ListComments (owner repo : string) (number : Z)
    (next : list IssueComment + string → Handling)
| EditComment (owner repo : string) (id : Z) (body : string)
    (next : option string → Handling).

(** Dereferencing a pointer. *)
Definition deref {A} (p : option A) (next : A → Handling) : Handling :=
  match p with
  | Some x => next x
  | None => Done Panic
  end.

Notation "'let*' x := p 'in' next" := (deref p (λ x, next))
  (at level 10, x name, p at level 100, next at level 200, only parsing).

(** *** The warning carried by an earlier report *)

(** The part of [s] before its first line break ([.] does not match it). *)
Fixpoint first_line (s : string) : string :=
  match s with
  | String c s' => if Ascii.eqb c (ascii_of_nat 10) then "" else String c (first_line s')
  | EmptyString => ""
  end.

(** The greedy group followed by [closing]: the text before the last place
    of the line at which [closing] starts. *)
Fixpoint before_last (closing line : string) : option string :=
  match line with
  | EmptyString => if String.prefix closing line then Some "" else None
  | String c rest =>
      match before_last closing rest with
      | Some group => Some (String c group)
      | None => if String.prefix closing line then Some "" else None
      end
  end.

Fixpoint string_drop (n : nat) (s : string) : string :=
  match n, s with
  | S n', String _ s' => string_drop n' s'
  | _, _ => s
  end.

(** [FindAllStringSubmatch(s, -1)] for the warning pattern (the opening
    marker and a blank, a greedy group of any characters but line breaks, a
    blank and the closing marker), reduced to what the source reads of it:
    [matches[0][1]] when there is a match. *)
Fixpoint find_warning (s : string) : option string :=
  let here :=
    if String.prefix ":exclamation: " s
    then before_last " :exclamation:" (first_line (string_drop 14 s))
    else None in
  match here, s with
  | Some group, _ => Some group
  | None, String _ s' => find_warning s'
  | None, EmptyString => None
  end.

(** Visit orders chosen by the runtime for the maps ranged over during one
    run of the handler. *)
Record MapOrder := {
  range_votes : gmap string bool → list (string * bool);
  range_emojis : gmap string (gset string) → list (string * list string);
  range_reactions : gmap string (list string) → list string;
}.

Section Handler.

Variable comment_String : IssueComment → string.

(** [json.Unmarshal(body, e)]; [None] is a decoding error. *)
Variable json_Unmarshal : string → option Event.

(** The visit orders of this run and the formatted time of rendering. *)
Variable order : MapOrder.
Variable now : string.

(** [status(warning, votes, reactions)] on the aggregated maps. *)
Definition status_of (warning : string) (votes : gmap string bool)
    (reactions : gmap string (gset string)) : string :=
  let emojis := range_emojis order reactions in
  status warning (range_votes order votes) emojis
         (range_reactions order (gather emojis)) now.

(** The loop retaining the warning of the engine's own comments. *)
Definition retained_warning (comments : list IssueComment) : string :=
  foldl (λ (warning : string) (comment : IssueComment),
           if decide (User_Login comment = githubUser) then
             match find_warning (comment_String comment) with
             | Some found => found
             | None => warning
             end
           else warning)
        "" comments.

(** The "created" case between the listing and the final loop: aggregate
    the votes, retain the warning, render the fresh report. *)
Definition refresh_report (comments : list IssueComment) : string :=
  let aggregated := aggregate comment_String comments in
  let votes := aggregated.1 in
  let reactions := aggregated.2 in
  let warning := retained_warning comments in
  status_of warning votes reactions.

(** The final loop: edit the first own comment and return. *)
Fixpoint edit_report (owner repo report : string)
    (comments : list IssueComment) : Handling :=
  match comments with
  | [] => Done OK
  | comment :: rest =>
      if decide (User_Login comment = githubUser) then
        EditComment owner repo (ID comment) report (λ err,
          match err with
          | Some err =>
              Done (Error ("Failed to update issue report: " +:+ err)
                          StatusInternalServerError)
          | None => Done OK
          end)
      else edit_report owner repo report rest
  end.

(** [handler] from the decoded event on. *)
Definition handle (e : Event) : Handling :=
  let* sender := Sender e in
  if decide (Login sender = githubUser) then Done OK
  else if negb (String.eqb (Action e) "opened")
          && negb (String.eqb (Action e) "created") then
    Done (Error "Non-supported action" StatusMethodNotAllowed)
  else if String.eqb (Action e) "opened" then
    let number :=
      match Event_Issue e, Event_PullRequest e with
      | Some issue, _ => Issue_Number issue
      | None, Some pr => PullRequest_Number pr
      | None, None => 0%Z
      end in
    let warning (next : string → Handling) :=
      match Event_PullRequest e with
      | Some pr =>
          let* base := Base pr in
          next (if String.eqb (Branch base) "master"
                then "Pull request against `master`" else "")
      | None => next ""
      end in
    warning (λ warning,
      let report := status warning [] [] [] now in
      let* repository := Event_Repository e in
      let* owner := Owner repository in
      CreateComment (Login owner) (Name repository) number report (λ err,
        match err with
        | Some err =>
            Done (Error ("Failed to comment on issue: " +:+ err)
                        StatusInternalServerError)
        | None => Done OK
        end))
  else
    let* repository := Event_Repository e in
    let* owner := Owner repository in
    let* issue := Event_Issue e in
    ListComments (Login owner) (Name repository) (Issue_Number issue) (λ res,
      match res with
      | inr err =>
          Done (Error ("Failed to list comments: " +:+ err)
                      StatusInternalServerError)
      | inl comments =>
          edit_report (Login owner) (Name repository)
                      (refresh_report comments) comments
      end).

(** [handler]: [body] is the outcome of reading the request body. *)
Definition handler (body : option string) : Handling :=
  match body with
  | None => Done (Error "Failed to read request body" StatusInternalServerError)
  | Some body =>
      match json_Unmarshal body with
      | None => Done (Error "Invalid GitHub event" StatusBadRequest)
      | Some e => handle e
      end
  end.

End Handler.

(** ** A model of the comment service

    The service keeps every posted comment with the thread it belongs to, in
    creation order.  Comments created through the client are authored by the
    account the access token belongs to, which [auth.go] sets to
    [githubUser].  What the service answers to a listing (which comments,
    how many of them, in which order) is not fixed here: it is an argument
    of the runs below. *)

Record Posted := {
  at_owner : string;
  at_repo : string;
  at_number : Z;
  posted : IssueComment;
}.

Definition fresh_id (store : list Posted) : Z :=
  1 + foldr Z.max 0%Z ((λ p, ID (posted p)) <$> store).

Definition create_comment (store : list Posted) (owner repo : string)
    (number : Z) (body : string) : list Posted :=
  store ++ [ {| at_owner := owner; at_repo := repo; at_number := number;
                posted := {| ID := fresh_id store; Body := body;
                             User_Login := githubUser |} |} ].

Definition set_body (body : string) (p : Posted) : Posted :=
  {| at_owner := at_owner p; at_repo := at_repo p; at_number := at_number p;
     posted := {| ID := ID (posted p); Body := body;
                  User_Login := User_Login (posted p) |} |}.

Definition edit_comment (store : list Posted) (owner repo : string)
    (id : Z) (body : string) : list Posted :=
  (λ p, if decide (at_owner p = owner ∧ at_repo p = repo ∧ ID (posted p) = id)
        then set_body body p else p) <$> store.

(** The calls a run made, in order. *)
Inductive Call :=
| Created (owner repo : string) (number : Z) (body : string)
| Listed (owner repo : string) (number : Z)
| Edited (owner repo : string) (id : Z) (body : string).

(** Runs a handling against the store.  [listing] is the answer of the
    service to a listing, given the comments it keeps and the owner,
    repository and number asked for.  [faults] schedules failures: its k-th
    element, when present and not [None], is the error the k-th call fails
    with; a failed call leaves the store as it was. *)
Fixpoint run
    (listing : list Posted → string → string → Z → list IssueComment)
    (h : Handling) (faults : list (option string))
    (store : list Posted) : Reply * list Posted * list Call :=
  let fault := mjoin (head faults) in
  match h with
  | Done reply => (reply, store, [])
  | CreateComment owner repo number body next =>
      let store' := if fault is None
                    then create_comment store owner repo number body
                    else store in
      let '(reply, final, calls) :=
        run listing (next fault) (tail faults) store' in
      (reply, final, Created owner repo number body :: calls)
  | ListComments owner repo number next =>
      let answer := match fault with
                    | None => inl (listing store owner repo number)
                    | Some err => inr err
                    end in
      let '(reply, final, calls) :=
        run listing (next answer) (tail faults) store in
      (reply, final, Listed owner repo number :: calls)
  | EditComment owner repo id body next =>
      let store' := if fault is None
                    then edit_comment store owner repo id body
                    else store in
      let '(reply, final, calls) :=
        run listing (next fault) (tail faults) store' in
      (reply, final, Edited owner repo id body :: calls)
  end.

(** The first comment, in list order, written by the engine itself. *)
Definition first_own (comments : list IssueComment) : option IssueComment :=
  List.find (λ c, bool_decide (User_Login c = githubUser)) comments.

(** What a run that ends a "created" notification may have done: [calls]
    are the calls made and [final] the comments kept by the service
    afterwards, [store] those kept before, [listing] the answers of the
    service to a listing and [report] the rendering of the fresh report
    from the listed comments. *)
Definition reconciled
    (listing : list Posted → string → string → Z → list IssueComment)
    (report : list IssueComment → string)
    (faults : list (option string)) (store : list Posted)
    (calls : list Call) (final : list Posted) : Prop :=
  (∀ owner repo number text, Created owner repo number text ∉ calls) ∧
  ((calls = [] ∧ final = store) ∨
   (∃ owner repo number,
      calls = [Listed owner repo number] ∧ final = store ∧
      (is_Some (mjoin (head faults)) ∨
       first_own (listing store owner repo number) = None)) ∨
   (∃ owner repo number comment,
      first_own (listing store owner repo number) = Some comment ∧
      calls =
        [Listed owner repo number;
         Edited owner repo (ID comment)
           (report (listing store owner repo number))] ∧
      (final =
         edit_comment store owner repo (ID comment)
           (report (listing store owner repo number)) ∨
       final = store))) ∧
  (∀ owner repo number,
     Listed owner repo number ∈ calls →
     first_own (listing store owner repo number) = None →
     calls = [Listed owner repo number] ∧ final = store).

(** ** Notions used to state further properties *)

(** [user] is among the users recorded for [code]. *)
Definition reacted (reactions : gmap string (gset string))
    (code user : string) : Prop :=
  ∃ users, reactions !! code = Some users ∧ user ∈ users.

(** The text carries one of the two vote tokens. *)
Definition votes_in (text : string) : bool :=
  Contains text ":+1:" || Contains text ":-1:".

(** Calls that change the comments kept by the service. *)
Definition is_write (call : Call) : bool :=
  match call with
  | Created _ _ _ _ | Edited _ _ _ _ => true
  | Listed _ _ _ => false
  end.

(** The forms a run of the handler can take, as calls made, reply and
    comments kept afterwards: no call; one create; one listing; one listing
    followed by one edit.  A write that failed leaves the comments as they
    were and is answered with something other than [OK]. *)
Definition run_shape (store : list Posted)
    (result : Reply * list Posted * list Call) : Prop :=
  (result.2 = [] ∧ result.1.2 = store) ∨
  (∃ owner repo number text,
     result.2 = [Created owner repo number text] ∧
     ((result.1.1 = OK ∧
       result.1.2 = create_comment store owner repo number text) ∨
      (result.1.1 ≠ OK ∧ result.1.2 = store))) ∨
  (∃ owner repo number,
     result.2 = [Listed owner repo number] ∧ result.1.2 = store) ∨
  (∃ owner repo number id text,
     result.2 = [Listed owner repo number; Edited owner repo id text] ∧
     ((result.1.1 = OK ∧
       result.1.2 = edit_comment store owner repo id text) ∨
      (result.1.1 ≠ OK ∧ result.1.2 = store))).

(** ** Sample runs *)

(** One admissible choice of visit orders. *)
Definition canonical_order : MapOrder :=
  {| range_votes := map_to_list;
     range_emojis := λ emojis,
       (λ entry : string * gset string, (entry.1, elements entry.2))
         <$> map_to_list emojis;
     range_reactions := λ reactions, (map_to_list reactions).*1 |}.

Definition sample_repository : Repository :=
  {| Name := "robotally"; Owner := Some {| Login := "karalabe" |} |}.

(** A notification with an unsupported action, sent by the engine itself. *)
Definition own_deleted_event : Event :=
  {| Action := "deleted"; Event_Issue := Some {| Issue_Number := 7 |};
     Event_PullRequest := None; Event_Repository := Some sample_repository;
     Sender := Some {| Login := githubUser |} |}.

Definition deleted_event : Event :=
  {| Action := "deleted"; Event_Issue := Some {| Issue_Number := 7 |};
     Event_PullRequest := None; Event_Repository := Some sample_repository;
     Sender := Some {| Login := "alice" |} |}.

(** "opened" notifications carrying neither an issue nor a pull request. *)
Definition own_bare_opened_event : Event :=
  {| Action := "opened"; Event_Issue := None; Event_PullRequest := None;
     Event_Repository := Some sample_repository;
     Sender := Some {| Login := githubUser |} |}.

Definition bare_opened_event : Event :=
  {| Action := "opened"; Event_Issue := None; Event_PullRequest := None;
     Event_Repository := Some sample_repository;
     Sender := Some {| Login := "alice" |} |}.

Definition created_event : Event :=
  {| Action := "created"; Event_Issue := Some {| Issue_Number := 7 |};
     Event_PullRequest := None; Event_Repository := Some sample_repository;
     Sender := Some {| Login := "bob" |} |}.

(** A decoder that recognises one request body. *)
Definition decode_as (e : Event) (body : string) : option Event :=
  if String.eqb body "payload" then Some e else None.

Definition post (number : Z) (c : IssueComment) : Posted :=
  {| at_owner := "karalabe"; at_repo := "robotally"; at_number := number;
     posted := c |}.

(** One answer of the service to a listing, used in the examples: the first
    page (thirty comments) of the comments of the thread asked for, in
    creation order; with number 0 the client asks for the comments of the
    whole repository. *)
Definition in_listing (owner repo : string) (number : Z) (p : Posted) : Prop :=
  at_owner p = owner ∧ at_repo p = repo ∧
  (number = 0%Z ∨ at_number p = number).

Global Instance in_listing_dec owner repo number p :
  Decision (in_listing owner repo number p).
Proof. unfold in_listing. apply _. Defined.

Definition thread_listing (store : list Posted) (owner repo : string)
    (number : Z) : list IssueComment :=
  take 30 (posted <$> filter (in_listing owner repo number) store).

(** Thread 7 with the engine's report between two user comments. *)
Definition sample_store : list Posted :=
  [ post 7 {| ID := 1; Body := "nice :+1: :tada:"; User_Login := "alice" |};
    post 7 {| ID := 2; Body := "stale report"; User_Login := githubUser |};
    post 7 {| ID := 3; Body := ":-1:"; User_Login := "bob" |} ].

(** The thread an "opened" notification is about: the issue's number when
    there is an issue, else the pull request's, else 0 (the value [number]
    has when the handler creates the report). *)
Definition opened_number (e : Event) : Z :=
  match Event_Issue e, Event_PullRequest e with
  | Some issue, _ => Issue_Number issue
  | None, Some pr => PullRequest_Number pr
  | None, None => 0%Z
  end.

Definition master_warning : string := "Pull request against `master`".

(** A pull request opened against master. *)
Definition pull_request_opened_event : Event :=
  {| Action := "opened"; Event_Issue := None;
     Event_PullRequest :=
       Some {| PullRequest_Number := 9;
               Base := Some {| Branch := "master" |} |};
     Event_Repository := Some sample_repository;
     Sender := Some {| Login := "alice" |} |}.

(** A change of mind by alice, followed by a comment without vote. *)
Definition reject_comment : IssueComment :=
  {| ID := 5; Body := "on second thought :-1:"; User_Login := "alice" |}.

Definition later_comment : IssueComment :=
  {| ID := 6; Body := "thanks :tada:"; User_Login := "bob" |}.

(** * Properties *)

(** ** Text scanning *)

Lemma append_assoc (s1 s2 s3 : string) :
  (s1 +:+ s2) +:+ s3 = s1 +:+ s2 +:+ s3.
Proof.
  induction s1 as [|c s1 IH]; [done|].
  change (String c (s1 +:+ s2) +:+ s3 = String c (s1 +:+ s2 +:+ s3)).
  change (String c ((s1 +:+ s2) +:+ s3) = String c (s1 +:+ s2 +:+ s3)).
  by rewrite IH.
Qed.

Lemma append_empty_r (s : string) : s +:+ "" = s.
Proof.
  induction s as [|c s IH]; [done|].
  change (String c (s +:+ "") = String c s). by rewrite IH.
Qed.

Example find_all_tada :
  FindAllString "nice :tada::+1: a:b_2:c: :: :x" = [":tada:"; ":b_2:"].
Proof. reflexivity. Qed.

Lemma prefix_app_r (t b post : string) :
  String.prefix t b = true → String.prefix t (b +:+ post) = true.
Proof.
  revert b; induction t as [|c t IH]; intros b.
  - intros _. by destruct b, post.
  - destruct b as [|c' b]; simpl; [done|].
    destruct (ascii_dec c c'); [apply IH | done].
Qed.

Lemma Contains_cons (c : ascii) (s t : string) :
  Contains (String c s) t = String.prefix t (String c s) || Contains s t.
Proof. done. Qed.

Lemma Contains_app_r (b t post : string) :
  Contains b t = true → Contains (b +:+ post) t = true.
Proof.
  induction b as [|c b IH].
  - destruct t; [|done]. by destruct post.
  - change (String c b +:+ post) with (String c (b +:+ post)).
    rewrite !Contains_cons. intros [H|H]%orb_true_iff.
    + apply (prefix_app_r _ _ post) in H.
      change (String c b +:+ post) with (String c (b +:+ post)) in H.
      by rewrite H.
    + rewrite (IH H). apply orb_true_r.
Qed.

Lemma Contains_app_l (pre s t : string) :
  Contains s t = true → Contains (pre +:+ s) t = true.
Proof.
  intros H. induction pre as [|c pre IH]; [done|].
  change (String c pre +:+ s) with (String c (pre +:+ s)).
  rewrite Contains_cons, IH. apply orb_true_r.
Qed.

Lemma Contains_embedded (pre b post t : string) :
  Contains b t = true → Contains (pre +:+ b +:+ post) t = true.
Proof. intros H. by apply Contains_app_l, Contains_app_r. Qed.

Lemma run_of_class (s : string) :
  Forall (λ c, emoji_char c = true) (list_ascii_of_string (run_of s)).
Proof.
  induction s as [|c s IH]; simpl; [constructor|].
  destruct (emoji_char c) eqn:E; simpl; by constructor.
Qed.

Lemma run_of_nonempty (s : string) : 0 < run_length s → run_of s ≠ EmptyString.
Proof. destruct s as [|c s]; simpl; [lia|]. by destruct (emoji_char c); [|lia]. Qed.

Lemma substring_run (s : string) (c : ascii) :
  String.get (run_length s) s = Some c →
  String.substring 0 (S (run_length s)) s = run_of s +:+ String c EmptyString.
Proof.
  induction s as [|a s IH]; simpl; [done|].
  destruct (emoji_char a); simpl.
  - intros H. by rewrite IH.
  - intros [= ->]. by destruct s.
Qed.

Lemma match_here_code (s : string) (n : nat) :
  match_here s = Some n → emoji_code (String.substring 0 (n + 2) s).
Proof.
  destruct s as [|c rest]; simpl; [done|].
  destruct (Ascii.eqb c ":") eqn:Hc; simpl; [|done].
  destruct (0 <? run_length rest) eqn:Hn; [|done].
  destruct (String.get (run_length rest) rest) as [c'|] eqn:Hget; [|done].
  destruct (Ascii.eqb c' ":") eqn:Hc'; [|done].
  intros [= <-]. apply Ascii.eqb_eq in Hc as ->, Hc' as ->.
  replace (run_length rest + 2) with (S (S (run_length rest))) by lia.
  simpl. rewrite (substring_run _ _ Hget).
  exists (run_of rest). split_and!; [done| |apply run_of_class].
  apply run_of_nonempty. by apply Nat.ltb_lt.
Qed.

Lemma find_all_cons (skip : nat) (c : ascii) (rest : string) :
  find_all skip (String c rest) =
    match skip with
    | S k => find_all k rest
    | O =>
        match match_here (String c rest) with
        | Some n =>
            String.substring 0 (n + 2) (String c rest) :: find_all (n + 1) rest
        | None => find_all 0 rest
        end
    end.
Proof. done. Qed.

Lemma find_all_code (s : string) (skip : nat) (code : string) :
  code ∈ find_all skip s → emoji_code code.
Proof.
  revert skip; induction s as [|c rest IH]; intros skip.
  - by intros ?%elem_of_nil.
  - rewrite find_all_cons. destruct skip as [|k]; [|apply IH].
    destruct (match_here (String c rest)) as [n|] eqn:Hm; [|apply IH].
    intros [->|?]%elem_of_cons; [by apply match_here_code | by eapply IH].
Qed.

Lemma FindAllString_code (s code : string) :
  code ∈ FindAllString s → emoji_code code.
Proof. apply find_all_code. Qed.

(** The scanner reports a code standing at the head of the text and resumes
    right after its closing colon; any other first character is skipped. *)
Lemma append_cons (c : ascii) (s t : string) :
  String c s +:+ t = String c (s +:+ t).
Proof. done. Qed.

Lemma run_length_app (run rest : string) :
  Forall (λ c, emoji_char c = true) (list_ascii_of_string run) →
  run_length (run +:+ String ":" rest) = String.length run.
Proof.
  induction run as [|c run IH]; [done|].
  intros [Hc Hrun]%Forall_cons. rewrite append_cons. simpl.
  by rewrite Hc, IH.
Qed.

Lemma get_app_length (s rest : string) (c : ascii) :
  String.get (String.length s) (s +:+ String c rest) = Some c.
Proof. induction s as [|a s IH]; [done|]. by rewrite append_cons. Qed.

Lemma substring_app_length (s rest : string) :
  String.substring 0 (String.length s) (s +:+ rest) = s.
Proof.
  induction s as [|a s IH]; [by destruct rest|].
  rewrite append_cons. simpl. by rewrite IH.
Qed.

Lemma find_all_skip (s rest : string) :
  find_all (String.length s) (s +:+ rest) = find_all 0 rest.
Proof.
  induction s as [|a s IH]; [done|].
  by rewrite append_cons, find_all_cons.
Qed.

Lemma FindAllString_code_first (run rest : string) :
  run ≠ "" →
  Forall (λ c, emoji_char c = true) (list_ascii_of_string run) →
  FindAllString (":" +:+ run +:+ ":" +:+ rest) =
    (":" +:+ run +:+ ":") :: FindAllString rest.
Proof.
  intros Hne Hrun. unfold FindAllString.
  change (":" +:+ run +:+ ":" +:+ rest)
    with (String ":" (run +:+ String ":" rest)).
  rewrite find_all_cons.
  assert (Hm : match_here (String ":" (run +:+ String ":" rest)) =
               Some (String.length run)).
  { unfold match_here. rewrite (run_length_app _ _ Hrun), get_app_length.
    destruct run; [done|]. done. }
  rewrite Hm. f_equal.
  - replace (String.length run + 2) with (S (String.length (run +:+ ":")))
      by (clear; induction run as [|a run IH];
          [done | rewrite append_cons; simpl; lia]).
    simpl. f_equal.
    change (String ":" rest) with (":" +:+ rest).
    rewrite <- append_assoc. by rewrite substring_app_length.
  - replace (String.length run + 1) with (String.length (run +:+ ":"))
      by (clear; induction run as [|a run IH];
          [done | rewrite append_cons; simpl; lia]).
    change (String ":" rest) with (":" +:+ rest).
    rewrite <- append_assoc. apply find_all_skip.
Qed.

Lemma FindAllString_skip (c : ascii) (s : string) :
  c ≠ ":"%char → FindAllString (String c s) = FindAllString s.
Proof.
  intros Hc%Ascii.eqb_neq. unfold FindAllString. rewrite find_all_cons.
  unfold match_here. by rewrite Hc.
Qed.

(** A code of the pattern starts with a colon followed by a class character,
    so it is none of the four strings below. *)
Lemma emoji_code_head (code : string) :
  emoji_code code →
  ∃ c rest, code = String ":" (String c rest) ∧ emoji_char c = true.
Proof.
  intros (run & -> & Hne & Hall). destruct run as [|c run]; [done|].
  exists c, (run +:+ ":"). split; [done|]. by inversion Hall.
Qed.

Lemma emoji_code_not_vote (code : string) :
  emoji_code code →
  code ≠ ":+1:" ∧ code ≠ ":-1:" ∧ code ≠ ":+1" ∧ code ≠ ":-1".
Proof.
  intros (c & rest & -> & Hc)%emoji_code_head.
  split_and!; intros [= -> _]; done.
Qed.

Lemma emoji_code_enabled (code : string) :
  emoji_code code → disabled_at code = false.
Proof.
  intros (_ & _ & H1 & H2)%emoji_code_not_vote.
  unfold disabled_at, disabled.
  by rewrite !lookup_insert_ne, lookup_empty.
Qed.

Lemma disabled_key (emoji : string) :
  is_Some (disabled !! emoji) → disabled_at emoji = true.
Proof.
  unfold disabled_at, disabled. intros [b Hb].
  rewrite lookup_insert in Hb. case_decide; simplify_eq.
  { by rewrite lookup_insert_eq. }
  rewrite lookup_insert in Hb. case_decide; simplify_eq.
  by rewrite lookup_insert_ne, lookup_insert_eq.
Qed.

(** ** The aggregator *)

Section AggregatorFacts.

Variable comment_String : IssueComment → string.

Abbreviation step := (aggregate_step comment_String).

Lemma aggregate_snoc (comments : list IssueComment) (comment : IssueComment) :
  aggregate comment_String (comments ++ [comment]) =
    step (aggregate comment_String comments) comment.
Proof. unfold aggregate. by rewrite foldl_app. Qed.

Lemma foldl_step_filter acc (comments : list IssueComment) :
  foldl step acc comments =
    foldl step acc (filter (λ c, User_Login c ≠ githubUser) comments).
Proof.
  revert acc; induction comments as [|c comments IH]; intros acc; [done|].
  rewrite filter_cons. simpl. unfold aggregate_step at 2.
  destruct (decide (User_Login c = githubUser)) as [Heq|Hne].
  - rewrite decide_False by (by intros ?). apply IH.
  - rewrite decide_True by done. simpl. rewrite <- IH.
    unfold aggregate_step at 3. by rewrite decide_False.
Qed.

(** Keys enter the reaction mapping only past the [disabled] test. *)
Lemma tally_emoji_keys (P : string → Prop) login reactions emoji :
  (disabled_at emoji = false → P emoji) →
  (∀ k, is_Some (reactions !! k) → P k) →
  ∀ k, is_Some (tally_emoji login reactions emoji !! k) → P k.
Proof.
  intros Hemoji Hall k. unfold tally_emoji.
  destruct (disabled_at emoji); simpl; [apply Hall|].
  destruct (decide (emoji = k)) as [<-|Hne]; [auto|].
  rewrite lookup_insert_ne by done. apply Hall.
Qed.

Lemma foldl_tally_keys (P : string → Prop) login codes reactions :
  (∀ code, code ∈ codes → disabled_at code = false → P code) →
  (∀ k, is_Some (reactions !! k) → P k) →
  ∀ k, is_Some (foldl (tally_emoji login) reactions codes !! k) → P k.
Proof.
  revert reactions; induction codes as [|code codes IH];
    intros reactions Hcodes Hall; [done|].
  simpl. apply IH.
  - intros c Hc. apply Hcodes. by right.
  - apply tally_emoji_keys; [|done]. apply Hcodes. by left.
Qed.

Lemma aggregate_keys (P : string → Prop) (comments : list IssueComment) :
  (∀ text code, code ∈ FindAllString text → disabled_at code = false → P code) →
  ∀ k, is_Some ((aggregate comment_String comments).2 !! k) → P k.
Proof.
  intros Hcodes. induction comments as [|c comments IH] using rev_ind.
  - intros k. unfold aggregate. simpl. rewrite lookup_empty. by intros [? ?].
  - rewrite aggregate_snoc. unfold aggregate_step.
    destruct (decide (User_Login c = githubUser)); [done|]. simpl.
    apply foldl_tally_keys; [|done]. intros code. apply Hcodes.
Qed.

(** Every user set of the reaction mapping is inhabited. *)
Lemma tally_emoji_inhabited login reactions emoji :
  (∀ k users, reactions !! k = Some users → users ≠ ∅) →
  ∀ k users, tally_emoji login reactions emoji !! k = Some users → users ≠ ∅.
Proof.
  intros Hall k users. unfold tally_emoji.
  destruct (disabled_at emoji); simpl; [apply Hall|].
  destruct (decide (emoji = k)) as [<-|Hne].
  - rewrite lookup_insert_eq. intros [= <-]. set_solver.
  - rewrite lookup_insert_ne by done. apply Hall.
Qed.

Lemma aggregate_inhabited (comments : list IssueComment) :
  ∀ k users, (aggregate comment_String comments).2 !! k = Some users →
             users ≠ ∅.
Proof.
  induction comments as [|c comments IH] using rev_ind.
  - intros k users. unfold aggregate. simpl. by rewrite lookup_empty.
  - rewrite aggregate_snoc. unfold aggregate_step.
    destruct (decide (User_Login c = githubUser)); [done|]. simpl.
    generalize (FindAllString (comment_String c)). intros codes.
    revert IH. generalize ((aggregate comment_String comments).2).
    induction codes as [|code codes IHc]; intros reactions Hall; [done|].
    simpl. apply IHc. by apply tally_emoji_inhabited.
Qed.

(** C5: comments written by the engine's own identity contribute nothing:
    the aggregated vote mapping and reaction mapping of a comment history
    are those of the history with the engine's comments removed. *)
Theorem aggregate_ignores_own_comments (comments : list IssueComment) :
  aggregate comment_String comments =
    aggregate comment_String
      (filter (λ c, User_Login c ≠ githubUser) comments).
Proof. apply foldl_step_filter. Qed.

(** C7: a comment of another author whose body holds both vote tokens is
    recorded as an approve vote of its author: after the aggregator has
    processed it, the vote mapping sends the author to [true].  The
    rendering of the comment that the aggregator scans is assumed to
    embed the body. *)
Theorem both_tokens_vote_approve
    (comments : list IssueComment) (comment : IssueComment) :
  User_Login comment ≠ githubUser →
  Contains (Body comment) ":+1:" = true →
  Contains (Body comment) ":-1:" = true →
  (∃ pre post, comment_String comment = pre +:+ Body comment +:+ post) →
  (aggregate comment_String (comments ++ [comment])).1
    !! User_Login comment = Some true.
Proof.
  intros Hother Hup _ (pre & post & Htext).
  rewrite aggregate_snoc. unfold aggregate_step.
  rewrite decide_False by done. simpl. unfold tally_vote.
  rewrite Htext, (Contains_embedded _ _ _ _ Hup).
  apply lookup_insert_eq.
Qed.

(** C9: the reaction mapping never holds a vote token as a code.  Every
    code of the mapping, like every code the scanner extracts, belongs to
    the pattern (a colon, one or more of [a-z0-9_], a colon), whose class
    has neither [+] nor [-]; and no extracted code is a key of [disabled],
    so the membership test never drops anything. *)
Theorem reactions_hold_no_vote_token (comments : list IssueComment) :
  (∀ code, is_Some ((aggregate comment_String comments).2 !! code) →
           emoji_code code) ∧
  (aggregate comment_String comments).2 !! ":+1:" = None ∧
  (aggregate comment_String comments).2 !! ":-1:" = None ∧
  emoji_char "+" = false ∧ emoji_char "-" = false ∧
  (∀ text code, code ∈ FindAllString text →
                emoji_code code ∧ disabled !! code = None ∧
                disabled_at code = false).
Proof.
  assert (Hkeys : ∀ code,
    is_Some ((aggregate comment_String comments).2 !! code) → emoji_code code).
  { apply aggregate_keys. intros text code Hin _.
    by apply FindAllString_code in Hin. }
  split_and!; try done.
  - apply eq_None_not_Some. intros H.
    by apply Hkeys, emoji_code_not_vote in H as (? & _).
  - apply eq_None_not_Some. intros H.
    by apply Hkeys, emoji_code_not_vote in H as (_ & ? & _).
  - intros text code Hin%FindAllString_code. split_and!; [done| |].
    + apply emoji_code_not_vote in Hin as (_ & _ & H1 & H2).
      unfold disabled. by rewrite !lookup_insert_ne, lookup_empty.
    + by apply emoji_code_enabled.
Qed.

End AggregatorFacts.

(** ** Sorting and the vote table *)

Lemma sort_Strings_sorted (l : list string) : Sorted String.le (sort_Strings l).
Proof. apply (Sorted_merge_sort String.le). Qed.

Lemma sort_Strings_perm (l : list string) : sort_Strings l ≡ₚ l.
Proof. apply merge_sort_Permutation. Qed.

(** Whatever algorithm [sort.Strings] runs, its result is this list. *)
Lemma sort_Strings_unique (l sorted : list string) :
  Sorted String.le sorted → sorted ≡ₚ l → sorted = sort_Strings l.
Proof.
  intros Hsorted Hperm. apply (Sorted_unique String.le); [done| |].
  - apply sort_Strings_sorted.
  - by rewrite sort_Strings_perm.
Qed.

Lemma sort_Strings_proper (l l' : list string) :
  l ≡ₚ l' → sort_Strings l = sort_Strings l'.
Proof.
  intros Hperm. apply sort_Strings_unique; [apply sort_Strings_sorted|].
  by rewrite sort_Strings_perm.
Qed.

Lemma elem_of_sort_Strings (x : string) (l : list string) :
  x ∈ sort_Strings l ↔ x ∈ l.
Proof. by rewrite sort_Strings_perm. Qed.

Global Instance mention_inj : Inj (=) (=) mention.
Proof. intros x y H. by injection H. Qed.

Lemma collect_votes_filter (votes : list (string * bool)) :
  collect_votes votes =
    (mention <$> (filter approves votes).*1,
     mention <$> (filter rejects votes).*1).
Proof.
  unfold collect_votes.
  enough (H : ∀ acc,
    foldl (λ (acc : list string * list string) (vote : string * bool),
             if vote.2 then (acc.1 ++ [mention vote.1], acc.2)
             else (acc.1, acc.2 ++ [mention vote.1])) acc votes =
    (acc.1 ++ (mention <$> (filter approves votes).*1),
     acc.2 ++ (mention <$> (filter rejects votes).*1))) by apply H.
  induction votes as [|[user yes] votes IH]; intros [up down]; simpl.
  - by rewrite !app_nil_r.
  - rewrite IH, !filter_cons. unfold approves at 2, rejects at 2.
    destruct yes; simpl; by rewrite <- app_assoc.
Qed.

Lemma elem_of_up_list (votes : list (string * bool)) (user : string) :
  mention user ∈ up_list votes ↔ (user, true) ∈ votes.
Proof.
  unfold up_list. rewrite elem_of_sort_Strings, collect_votes_filter. simpl.
  rewrite (list_elem_of_fmap_inj mention). rewrite list_elem_of_fmap. split.
  - intros ([u yes] & -> & [Hyes Hin]%list_elem_of_filter).
    unfold approves in Hyes. simpl in *. by subst.
  - intros Hin. exists (user, true). split; [done|].
    by apply list_elem_of_filter.
Qed.

Lemma elem_of_down_list (votes : list (string * bool)) (user : string) :
  mention user ∈ down_list votes ↔ (user, false) ∈ votes.
Proof.
  unfold down_list. rewrite elem_of_sort_Strings, collect_votes_filter. simpl.
  rewrite (list_elem_of_fmap_inj mention). rewrite list_elem_of_fmap. split.
  - intros ([u yes] & -> & [Hyes Hin]%list_elem_of_filter).
    unfold rejects in Hyes. simpl in *. by subst.
  - intros Hin. exists (user, false). split; [done|].
    by apply list_elem_of_filter.
Qed.

Lemma up_list_mentions (votes : list (string * bool)) (name : string) :
  name ∈ up_list votes → ∃ user, name = mention user.
Proof.
  unfold up_list. rewrite elem_of_sort_Strings, collect_votes_filter. simpl.
  intros (user & -> & _)%list_elem_of_fmap. by exists user.
Qed.

Lemma up_list_proper (votes votes' : list (string * bool)) :
  votes ≡ₚ votes' → up_list votes = up_list votes'.
Proof.
  intros Hperm. unfold up_list. rewrite !collect_votes_filter. simpl.
  apply sort_Strings_proper. by rewrite Hperm.
Qed.

Lemma down_list_proper (votes votes' : list (string * bool)) :
  votes ≡ₚ votes' → down_list votes = down_list votes'.
Proof.
  intros Hperm. unfold down_list. rewrite !collect_votes_filter. simpl.
  apply sort_Strings_proper. by rewrite Hperm.
Qed.

Lemma status_shape (warning : string) (votes : list (string * bool))
    (emojis : list (string * list string)) (order : list string) (now : string) :
  ∃ banner, status warning votes emojis order now =
    banner +:+ vote_table (up_list votes) (down_list votes)
      +:+ (if 0 <? length emojis
           then reaction_table (reaction_rows emojis order) else "")
      +:+ nl +:+ nl +:+ "_Updated: " +:+ now +:+ "_".
Proof.
  unfold status.
  exists (if 0 <? String.length warning
          then ":exclamation: " +:+ warning +:+ " :exclamation:" +:+ nl +:+ nl
          else "").
  destruct (0 <? String.length warning), (0 <? length emojis);
    by rewrite ?append_assoc.
Qed.

(** C6: in every rendered report the approve list and the reject list of
    the vote table are each in ascending lexicographic order, they share no
    name, and every user of the vote mapping is in exactly one of them:
    the approve list when the vote is [true], the reject list otherwise. *)
Theorem vote_lists_sorted_and_disjoint
    (votes : gmap string bool) (visit : list (string * bool)) :
  visits_votes votes visit →
  Sorted String.le (up_list visit) ∧
  Sorted String.le (down_list visit) ∧
  (∀ name, name ∈ up_list visit → name ∉ down_list visit) ∧
  (∀ user, is_Some (votes !! user) →
     (mention user ∈ up_list visit ∧ (mention user ∉ down_list visit) ∧
      votes !! user = Some true) ∨
     (mention user ∈ down_list visit ∧ (mention user ∉ up_list visit) ∧
      votes !! user = Some false)) ∧
  (∀ warning emojis order now, ∃ banner rest,
     status warning visit emojis order now =
       banner +:+ vote_table (up_list visit) (down_list visit) +:+ rest).
Proof.
  intros Hvisit.
  assert (Hin : ∀ user yes, (user, yes) ∈ visit ↔ votes !! user = Some yes).
  { intros user yes. unfold visits_votes in Hvisit. rewrite Hvisit.
    apply elem_of_map_to_list. }
  split_and!.
  - apply sort_Strings_sorted.
  - apply sort_Strings_sorted.
  - intros name Hup Hdown.
    destruct (up_list_mentions _ _ Hup) as [user ->].
    apply elem_of_up_list, Hin in Hup. apply elem_of_down_list, Hin in Hdown.
    congruence.
  - intros user [[] Hyes]; [left|right]; split_and!; try done.
    + by apply elem_of_up_list, Hin.
    + rewrite elem_of_down_list, Hin. congruence.
    + by apply elem_of_down_list, Hin.
    + rewrite elem_of_up_list, Hin. congruence.
  - intros warning emojis order now.
    destruct (status_shape warning visit emojis order now) as [banner ->].
    by eexists _, _.
Qed.

Lemma vote_lists_sorted_and_disjoint_witness :
  visits_votes sample_votes (map_to_list sample_votes) ∧
  Sorted String.le (up_list (map_to_list sample_votes)) ∧
  Sorted String.le (down_list (map_to_list sample_votes)).
Proof.
  assert (H : visits_votes sample_votes (map_to_list sample_votes))
    by (unfold visits_votes; reflexivity).
  split; [exact H|].
  split; apply (vote_lists_sorted_and_disjoint _ _ H).
Defined.

(** ** The reaction table *)

Lemma insert_swap_perm (l : list string) (j : nat) (x y : string) :
  l !! j = Some y → y :: <[j := x]> l ≡ₚ x :: l.
Proof.
  revert j; induction l as [|b l IH]; intros [|j]; simpl; try done.
  - intros [= ->]. apply perm_swap.
  - intros H. rewrite perm_swap, (IH _ H). apply perm_swap.
Qed.

Lemma swap_perm (emojis : list string) (i j : nat) : swap emojis i j ≡ₚ emojis.
Proof.
  unfold swap.
  destruct (emojis !! i) as [x|] eqn:Hi; [|done].
  destruct (emojis !! j) as [y|] eqn:Hj; [|done].
  revert i j Hi Hj; induction emojis as [|a l IH];
    intros [|i] [|j]; simpl; try done.
  - by intros [= ->] [= ->].
  - intros [= ->] H. by apply insert_swap_perm.
  - intros H [= ->]. by apply insert_swap_perm.
  - intros Hi Hj. by rewrite IH.
Qed.

Lemma compare_swap_perm reactions i (st : list string * string) j :
  (compare_swap reactions i st j).1 ≡ₚ st.1.
Proof.
  unfold compare_swap. case_match; [apply swap_perm | done].
Qed.

Lemma order_pass_perm reactions (emojis : list string) i :
  order_pass reactions emojis i ≡ₚ emojis.
Proof.
  unfold order_pass.
  generalize (default "" (emojis !! i)) (seq 0 (length emojis - (i + 1))).
  intros first js. revert emojis first.
  induction js as [|j js IH]; intros emojis first; [done|].
  simpl. destruct (compare_swap reactions i (emojis, first) j) as [emojis' first'] eqn:E.
  rewrite IH. by rewrite <- (compare_swap_perm reactions i (emojis, first) j), E.
Qed.

(** The loops rearrange the slice: no code is lost, added or repeated. *)
Lemma order_by_frequency_perm reactions (emojis : list string) :
  order_by_frequency reactions emojis ≡ₚ emojis.
Proof.
  unfold order_by_frequency. generalize (seq 0 (length emojis)).
  intros passes. revert emojis.
  induction passes as [|i passes IH]; intros emojis; [done|].
  simpl. by rewrite IH, order_pass_perm.
Qed.

Lemma reaction_rows_codes (emojis : list (string * list string))
    (order : list string) :
  (reaction_rows emojis order).*1 ≡ₚ order.
Proof.
  unfold reaction_rows. rewrite <- list_fmap_compose.
  rewrite <- (order_by_frequency_perm (gather emojis) order) at 2.
  by rewrite list_fmap_id.
Qed.

Lemma gather_inner (emoji : string) (users : list string)
    (reactions : gmap string (list string)) :
  foldl (λ (r : gmap string (list string)) (user : string),
           <[emoji := users_of r emoji ++ [mention user]]> r)
        reactions users =
    match users with
    | [] => reactions
    | _ => <[emoji := users_of reactions emoji ++ (mention <$> users)]> reactions
    end.
Proof.
  revert reactions; induction users as [|user users IH]; intros reactions; [done|].
  simpl. rewrite IH. destruct users as [|user' users]; [done|].
  unfold users_of at 1. rewrite lookup_insert_eq, insert_insert_eq. simpl.
  by rewrite <- app_assoc.
Qed.

Lemma gather_one_fresh (reactions : gmap string (list string))
    (emoji : string) (users : list string) :
  reactions !! emoji = None →
  gather_one reactions (emoji, users) =
    match users with
    | [] => reactions
    | _ => <[emoji := sort_Strings (mention <$> users)]> reactions
    end.
Proof.
  intros Hfresh. unfold gather_one. simpl. rewrite gather_inner.
  destruct users as [|user users]; [by rewrite Hfresh|].
  rewrite lookup_insert_eq, insert_insert_eq.
  unfold users_of. by rewrite Hfresh.
Qed.

Lemma gather_one_other (reactions : gmap string (list string))
    (entry : string * list string) (k : string) :
  k ≠ entry.1 → gather_one reactions entry !! k = reactions !! k.
Proof.
  intros Hne. unfold gather_one. rewrite gather_inner.
  destruct (entry.2); case_match; by rewrite ?lookup_insert_ne.
Qed.

Lemma gather_snoc (emojis : list (string * list string)) entry :
  gather (emojis ++ [entry]) = gather_one (gather emojis) entry.
Proof. unfold gather. by rewrite foldl_app. Qed.

Lemma gather_keys (emojis : list (string * list string)) (k : string) :
  is_Some (gather emojis !! k) → k ∈ emojis.*1.
Proof.
  induction emojis as [|entry emojis IH] using rev_ind.
  - unfold gather. simpl. rewrite lookup_empty. by intros [? ?].
  - rewrite gather_snoc, fmap_app, elem_of_app. simpl.
    destruct (decide (k = entry.1)) as [->|Hne].
    + intros _. right. by left.
    + rewrite gather_one_other by done. auto.
Qed.

Lemma gather_lookup (emojis : list (string * list string)) emoji users :
  NoDup emojis.*1 → (emoji, users) ∈ emojis →
  gather emojis !! emoji =
    match users with
    | [] => None
    | _ => Some (sort_Strings (mention <$> users))
    end.
Proof.
  induction emojis as [|[e us] emojis IH] using rev_ind.
  - by intros _ ?%elem_of_nil.
  - rewrite fmap_app. simpl. intros [Hnodup [Hfresh _]]%NoDup_app.
    assert (He : gather emojis !! e = None).
    { apply eq_None_not_Some. intros H%gather_keys.
      apply (Hfresh e); [done | by left]. }
    rewrite gather_snoc, gather_one_fresh by done.
    intros [Hin|Hin%list_elem_of_singleton]%elem_of_app.
    + assert (emoji ≠ e).
      { intros ->. apply (Hfresh e); [|by left].
        apply list_elem_of_fmap. by exists (e, users). }
      destruct us; rewrite ?lookup_insert_ne by done; by apply IH.
    + simplify_eq. destruct us; [done|]. by rewrite lookup_insert_eq.
Qed.

Lemma sample_history_reactions :
  (aggregate sample_String sample_history).2 = sample_reactions.
Proof. by vm_compute. Qed.

Lemma sample_visit_valid (users : list string) :
  users ≡ₚ ["alice"; "bob"] →
  visits_emojis sample_reactions [(":tada:", ["alice"]); (":rocket:", users)].
Proof.
  intros Husers.
  exists [(":tada:", {["alice"]}); (":rocket:", {["alice"; "bob"]})].
  split.
  - unfold sample_reactions.
    rewrite map_to_list_insert by (by rewrite lookup_insert_ne, lookup_empty).
    rewrite map_to_list_insert by apply lookup_empty.
    by rewrite map_to_list_empty.
  - constructor; [split; [done|] |].
    { simpl. by rewrite elements_singleton. }
    constructor; [split; [done|] | constructor].
    simpl. rewrite elements_union_singleton by set_solver.
    by rewrite elements_singleton.
Qed.

Lemma sample_gather :
  gather sample_visit =
    <[":tada:" := ["@alice"]]> (<[":rocket:" := ["@alice"; "@bob"]]> ∅).
Proof. by vm_compute. Qed.

Lemma sample_order_valid (order : list string) :
  order ≡ₚ [":tada:"; ":rocket:"] → visits_keys (gather sample_visit) order.
Proof.
  intros Horder. unfold visits_keys. rewrite Horder, sample_gather.
  rewrite map_to_list_insert by (by rewrite lookup_insert_ne, lookup_empty).
  rewrite map_to_list_insert by apply lookup_empty.
  by rewrite map_to_list_empty.
Qed.

(** *** Visits of the same mapping build the same table *)

Lemma visit_codes (entries : list (string * gset string))
    (visit : list (string * list string)) :
  Forall2 (λ (entry : string * gset string) (seen : string * list string),
             seen.1 = entry.1 ∧ seen.2 ≡ₚ elements entry.2) entries visit →
  visit.*1 = entries.*1.
Proof.
  induction 1 as [|entry seen ? ? [H _] _ IH]; [done|].
  rewrite !fmap_cons. by rewrite H, IH.
Qed.

Lemma visit_entry (entries : list (string * gset string))
    (visit : list (string * list string)) (entry : string * gset string) :
  Forall2 (λ (entry : string * gset string) (seen : string * list string),
             seen.1 = entry.1 ∧ seen.2 ≡ₚ elements entry.2) entries visit →
  entry ∈ entries →
  ∃ users, (entry.1, users) ∈ visit ∧ users ≡ₚ elements entry.2.
Proof.
  induction 1 as [|first [code users] ? ? [H1 H2] _ IH]; simpl in *.
  - by intros ?%elem_of_nil.
  - intros [->|Hin]%elem_of_cons.
    + exists users. split; [|done]. subst code. by left.
    + destruct (IH Hin) as (users' & ? & ?). exists users'. split; [by right|done].
Qed.

Lemma visits_emojis_codes (emojis : gmap string (gset string))
    (visit : list (string * list string)) :
  visits_emojis emojis visit → visit.*1 ≡ₚ (map_to_list emojis).*1.
Proof.
  intros (entries & Hperm & Hall). by rewrite (visit_codes _ _ Hall), Hperm.
Qed.

Lemma visits_emojis_length (emojis : gmap string (gset string))
    (visit : list (string * list string)) :
  visits_emojis emojis visit → length visit = size emojis.
Proof.
  intros H%visits_emojis_codes%Permutation_length.
  rewrite !length_fmap in H. by rewrite H, length_map_to_list.
Qed.

Lemma gather_visits (emojis : gmap string (gset string))
    (visit : list (string * list string)) :
  visits_emojis emojis visit → gather visit = gathered emojis.
Proof.
  intros Hvisit. pose proof (visits_emojis_codes _ _ Hvisit) as Hcodes.
  destruct Hvisit as (entries & Hperm & Hall).
  assert (Hnodup : NoDup visit.*1).
  { rewrite Hcodes. apply NoDup_fst_map_to_list. }
  apply map_eq. intros code. unfold gathered. rewrite lookup_omap.
  destruct (emojis !! code) as [users|] eqn:Hcode; simpl.
  - assert (Hin : (code, users) ∈ entries).
    { rewrite Hperm. by apply elem_of_map_to_list. }
    destruct (visit_entry _ _ _ Hall Hin) as (seen & Hseen & Hsame).
    simpl in *. rewrite (gather_lookup _ _ _ Hnodup Hseen).
    destruct (elements users) as [|u us] eqn:Hel.
    + by apply Permutation_nil_r in Hsame as ->.
    + destruct seen as [|s seen].
      { by apply Permutation_nil_cons in Hsame. }
      f_equal. apply sort_Strings_proper. by rewrite Hsame.
  - apply eq_None_not_Some. intros Hsome%gather_keys.
    rewrite Hcodes in Hsome.
    apply list_elem_of_fmap in Hsome as ([code' users] & -> & Hin).
    apply elem_of_map_to_list in Hin. simpl in *. congruence.
Qed.

Lemma gathered_lookup_is_Some (emojis : gmap string (gset string)) code :
  is_Some (gathered emojis !! code) → is_Some (emojis !! code).
Proof.
  unfold gathered. rewrite lookup_omap.
  destruct (emojis !! code); [by eexists | by intros [? ?]].
Qed.

Lemma visits_keys_elem (reactions : gmap string (list string))
    (order : list string) (code : string) :
  visits_keys reactions order → code ∈ order → is_Some (reactions !! code).
Proof.
  unfold visits_keys. intros -> ([code' users] & -> & Hin)%list_elem_of_fmap.
  apply elem_of_map_to_list in Hin. by eexists.
Qed.

(** C1: the loops meant to order the reaction rows by frequency swap the
    slots [i] and [j] where the comparison was made on the slots [i] and
    [i+1+j], so the rows may come out in ascending order.  For the history
    below (two comments, the reaction mapping sends [:tada:] to one user
    and [:rocket:] to two), when the runtime visits [:tada:] first, the
    table lists [:tada:] (one user) above [:rocket:] (two users). *)
Theorem reaction_rows_not_descending :
  (aggregate sample_String sample_history).2 = sample_reactions ∧
  visits_emojis sample_reactions sample_visit ∧
  visits_keys (gather sample_visit) [":tada:"; ":rocket:"] ∧
  reaction_rows sample_visit [":tada:"; ":rocket:"] =
    [(":tada:", ["@alice"]); (":rocket:", ["@alice"; "@bob"])] ∧
  ¬ descending (reaction_rows sample_visit [":tada:"; ":rocket:"]).
Proof.
  assert (Hrows : reaction_rows sample_visit [":tada:"; ":rocket:"] =
                  [(":tada:", ["@alice"]); (":rocket:", ["@alice"; "@bob"])])
    by (by vm_compute).
  split_and!.
  - apply sample_history_reactions.
  - by apply sample_visit_valid.
  - by apply sample_order_valid.
  - exact Hrows.
  - rewrite Hrows. intros Hdesc.
    specialize (Hdesc 0 _ _ eq_refl eq_refl). simpl in Hdesc. lia.
Qed.

(** When the runtime happens to visit the codes in descending order of user
    count, the loops leave them alone (here [:rocket:] before [:tada:]). *)
Lemma reaction_rows_other_visit :
  reaction_rows sample_visit [":rocket:"; ":tada:"] =
    [(":rocket:", ["@alice"; "@bob"]); (":tada:", ["@alice"])].
Proof. by vm_compute. Qed.

Lemma tied_visit_valid : visits_emojis tied_reactions tied_visit.
Proof.
  exists [(":tada:", {["alice"]}); (":rocket:", {["alice"]})].
  split.
  - unfold tied_reactions.
    rewrite map_to_list_insert by (by rewrite lookup_insert_ne, lookup_empty).
    rewrite map_to_list_insert by apply lookup_empty.
    by rewrite map_to_list_empty.
  - constructor; [split; [done|] |].
    { simpl. by rewrite elements_singleton. }
    constructor; [split; [done|] | constructor].
    simpl. by rewrite elements_singleton.
Qed.

Lemma tied_gather :
  gather tied_visit =
    <[":tada:" := ["@alice"]]> (<[":rocket:" := ["@alice"]]> ∅).
Proof. by vm_compute. Qed.

Lemma tied_order_valid (order : list string) :
  order ≡ₚ [":tada:"; ":rocket:"] → visits_keys (gather tied_visit) order.
Proof.
  intros Horder. unfold visits_keys. rewrite Horder, tied_gather.
  rewrite map_to_list_insert by (by rewrite lookup_insert_ne, lookup_empty).
  rewrite map_to_list_insert by apply lookup_empty.
  by rewrite map_to_list_empty.
Qed.

(** The claim of C2 fails as stated: the same warning, votes, reaction
    mapping and timestamp render to two different texts.  The two codes of
    the mapping have one user each, the loops break no tie, and the rows
    follow the order in which the runtime visits the codes. *)
Lemma rendering_varies_with_code_order :
  visits_votes ∅ [] ∧
  visits_emojis tied_reactions tied_visit ∧
  visits_keys (gather tied_visit) [":tada:"; ":rocket:"] ∧
  visits_keys (gather tied_visit) [":rocket:"; ":tada:"] ∧
  status "" [] tied_visit [":tada:"; ":rocket:"] sample_now ≠
    status "" [] tied_visit [":rocket:"; ":tada:"] sample_now.
Proof.
  split_and!.
  - unfold visits_votes. by rewrite map_to_list_empty.
  - apply tied_visit_valid.
  - by apply tied_order_valid.
  - apply tied_order_valid, perm_swap.
  - intros H. vm_compute in H. discriminate H.
Qed.

Lemma visits_votes_perm (votes : gmap string bool)
    (visit visit' : list (string * bool)) :
  visits_votes votes visit → visits_votes votes visit' → visit ≡ₚ visit'.
Proof. unfold visits_votes. by intros -> ->. Qed.

Lemma gathered_size (emojis : gmap string (gset string)) :
  size (gathered emojis) ≤ size emojis.
Proof.
  rewrite <- !(size_dom (D := gset string)). apply subseteq_size.
  unfold gathered. apply dom_omap_subseteq.
Qed.

Lemma short_perm_eq (l l' keys : list string) :
  length keys ≤ 1 → l ≡ₚ keys → l' ≡ₚ keys → l = l'.
Proof.
  intros Hlen Hl Hl'. destruct keys as [|k [|k' keys]]; simpl in Hlen; [| |lia].
  - apply Permutation_nil_r in Hl, Hl'. by subst.
  - apply Permutation_singleton_r in Hl, Hl'. by subst.
Qed.

(** C2, as amended: the report depends on the warning, the two mappings and
    the timestamp, and beyond them only on the order in which the runtime
    visits the reaction codes.  Two renderings of the same inputs with the
    same timestamp are identical when that order is the same in both, which
    is forced when the reaction mapping has at most one code; the orders in
    which votes and the users of a code are visited never matter. *)
Theorem rendering_fixed_by_code_order
    (warning now : string) (votes : gmap string bool)
    (emojis : gmap string (gset string))
    (vs vs' : list (string * bool)) (es es' : list (string * list string))
    (ks ks' : list string) :
  visits_votes votes vs → visits_votes votes vs' →
  visits_emojis emojis es → visits_emojis emojis es' →
  visits_keys (gather es) ks → visits_keys (gather es') ks' →
  ks = ks' ∨ size emojis ≤ 1 →
  status warning vs es ks now = status warning vs' es' ks' now.
Proof.
  intros Hvs Hvs' Hes Hes' Hks Hks' Hsame.
  pose proof (visits_votes_perm _ _ _ Hvs Hvs') as Hvotes.
  pose proof (gather_visits _ _ Hes) as Hg.
  pose proof (gather_visits _ _ Hes') as Hg'.
  assert (ks = ks') as <-.
  { destruct Hsame as [?|Hsize]; [done|].
    unfold visits_keys in Hks, Hks'. rewrite Hg in Hks. rewrite Hg' in Hks'.
    apply (short_perm_eq ks ks' (map_to_list (gathered emojis)).*1);
      [|done..].
    rewrite length_fmap, length_map_to_list.
    pose proof (gathered_size emojis). lia. }
  unfold status, reaction_rows.
  rewrite (up_list_proper _ _ Hvotes), (down_list_proper _ _ Hvotes).
  rewrite (visits_emojis_length _ _ Hes), (visits_emojis_length _ _ Hes').
  by rewrite Hg, Hg'.
Qed.

Lemma rendering_fixed_by_code_order_witness :
  status "" (map_to_list sample_votes) sample_visit
         [":tada:"; ":rocket:"] sample_now =
  status "" (reverse (map_to_list sample_votes))
         [(":tada:", ["alice"]); (":rocket:", ["bob"; "alice"])]
         [":tada:"; ":rocket:"] sample_now.
Proof.
  assert (Hes' : visits_emojis sample_reactions
                   [(":tada:", ["alice"]); (":rocket:", ["bob"; "alice"])])
    by apply sample_visit_valid, perm_swap.
  assert (Hes : visits_emojis sample_reactions sample_visit)
    by (by apply sample_visit_valid).
  apply (rendering_fixed_by_code_order "" sample_now sample_votes
           sample_reactions).
  - unfold visits_votes. reflexivity.
  - unfold visits_votes. apply reverse_Permutation.
  - exact Hes.
  - exact Hes'.
  - by apply sample_order_valid.
  - unfold visits_keys.
    rewrite (gather_visits _ _ Hes'), <- (gather_visits _ _ Hes).
    by apply sample_order_valid.
  - by left.
Defined.

(** C8: a key of the [disabled] table is never a code of the aggregated
    reaction mapping, and never the code of a row of the reaction table
    rendered from that mapping, whatever the comments say and in whatever
    order the runtime visits the maps. *)
Theorem disabled_codes_never_reported
    (comment_String : IssueComment → string)
    (comments : list IssueComment) (emoji : string)
    (visit : list (string * list string)) (order : list string) :
  is_Some (disabled !! emoji) →
  visits_emojis (aggregate comment_String comments).2 visit →
  visits_keys (gather visit) order →
  (aggregate comment_String comments).2 !! emoji = None ∧
  emoji ∉ (reaction_rows visit order).*1.
Proof.
  intros Hkey%disabled_key Hvisit Horder.
  assert (Habsent : (aggregate comment_String comments).2 !! emoji = None).
  { apply eq_None_not_Some. intros Hsome.
    apply (aggregate_keys comment_String (λ k, disabled_at k = false))
      in Hsome; [congruence | done]. }
  split; [done|]. intros Hrow.
  rewrite reaction_rows_codes in Hrow.
  apply (visits_keys_elem _ _ _ Horder) in Hrow.
  rewrite (gather_visits _ _ Hvisit) in Hrow.
  apply gathered_lookup_is_Some in Hrow. rewrite Habsent in Hrow.
  by destruct Hrow.
Qed.

Lemma disabled_codes_never_reported_witness :
  is_Some (disabled !! ":+1") ∧
  (aggregate sample_String sample_history).2 !! ":+1" = None ∧
  ":+1" ∉ (reaction_rows sample_visit [":tada:"; ":rocket:"]).*1.
Proof.
  assert (Hkey : is_Some (disabled !! ":+1")) by (by eexists).
  split; [exact Hkey|].
  apply (disabled_codes_never_reported sample_String sample_history ":+1"
           sample_visit [":tada:"; ":rocket:"] Hkey).
  - rewrite sample_history_reactions. by apply sample_visit_valid.
  - by apply sample_order_valid.
Defined.

(** ** The handler *)

Section HandlerFacts.

Variable comment_String : IssueComment → string.
Variable json_Unmarshal : string → option Event.
Variable order : MapOrder.
Variable now : string.
Variable listing : list Posted → string → string → Z → list IssueComment.

Abbreviation handle' := (handle comment_String order now).
Abbreviation handler' := (handler comment_String json_Unmarshal order now).

Lemma handler_decoded (body : string) (e : Event) :
  json_Unmarshal body = Some e → handler' (Some body) = handle' e.
Proof. intros H. unfold handler. by rewrite H. Qed.

Lemma run_Done (reply : Reply) faults store :
  run listing (Done reply) faults store = (reply, store, []).
Proof. done. Qed.

(** With an unsupported action the handler stops before building a client. *)
Lemma handle_unsupported (e : Event) :
  Action e ≠ "opened" → Action e ≠ "created" →
  handle' e =
    match Sender e with
    | None => Done Panic
    | Some sender =>
        if decide (Login sender = githubUser) then Done OK
        else Done (Error "Non-supported action" StatusMethodNotAllowed)
    end.
Proof.
  intros Ho%String.eqb_neq Hc%String.eqb_neq. unfold handle, deref.
  destruct (Sender e) as [sender|]; [|done].
  destruct (decide (Login sender = githubUser)); [done|].
  by rewrite Ho, Hc.
Qed.

(** C4, as amended: a notification whose action is neither "opened" nor
    "created" never causes a call of the comment service.  When its sender
    is present and is not the engine's own identity, the reply is the client
    error 405 "Non-supported action"; when the sender is the engine's own
    identity, the notification is accepted silently, before its action is
    looked at. *)
Theorem unsupported_action_rejected (body : string) (e : Event) :
  json_Unmarshal body = Some e →
  Action e ≠ "opened" → Action e ≠ "created" →
  (∃ reply, handler' (Some body) = Done reply ∧
     ∀ faults store, run listing (handler' (Some body)) faults store = (reply, store, [])) ∧
  (∀ sender, Sender e = Some sender → Login sender ≠ githubUser →
     handler' (Some body) =
       Done (Error "Non-supported action" StatusMethodNotAllowed)) ∧
  (∀ sender, Sender e = Some sender → Login sender = githubUser →
     handler' (Some body) = Done OK).
Proof.
  intros Hbody Ho Hc.
  rewrite (handler_decoded _ _ Hbody), (handle_unsupported _ Ho Hc).
  split_and!.
  - destruct (Sender e) as [sender|]; [case_decide|]; by eexists.
  - intros sender -> Hother. by rewrite decide_False.
  - intros sender -> Hself. by rewrite decide_True.
Qed.

(** C10, as amended: an "opened" notification that carries neither an issue
    nor a pull request, whose sender is present and is not the engine's own
    identity and whose repository and owner are present, makes the handler
    call the comment service once, to create the empty report on thread
    number 0 of that repository. *)
Theorem opened_without_payload_targets_zero
    (body : string) (e : Event) (sender owner : User) (repository : Repository) :
  json_Unmarshal body = Some e →
  Action e = "opened" →
  Event_Issue e = None → Event_PullRequest e = None →
  Sender e = Some sender → Login sender ≠ githubUser →
  Event_Repository e = Some repository → Owner repository = Some owner →
  (∃ next,
     handler' (Some body) =
       CreateComment (Login owner) (Name repository) 0
                     (status "" [] [] [] now) next ∧
     next None = Done OK ∧
     ∀ err, next (Some err) =
              Done (Error ("Failed to comment on issue: " +:+ err)
                          StatusInternalServerError)) ∧
  (∀ faults store,
     (run listing (handler' (Some body)) faults store).2 =
       [Created (Login owner) (Name repository) 0 (status "" [] [] [] now)]).
Proof.
  intros Hbody Hact Hissue Hpr Hsender Hother Hrepo Howner.
  rewrite (handler_decoded _ _ Hbody). unfold handle, deref.
  rewrite Hsender, decide_False, Hact by done. simpl.
  rewrite Hissue, Hpr, Hrepo, Howner. split.
  - by eexists.
  - intros faults store. simpl. by destruct (mjoin (head faults)).
Qed.

Lemma edit_report_first_own (owner repo report : string)
    (comments : list IssueComment) :
  edit_report owner repo report comments =
    match first_own comments with
    | None => Done OK
    | Some comment =>
        EditComment owner repo (ID comment) report (λ err,
          match err with
          | Some err =>
              Done (Error ("Failed to update issue report: " +:+ err)
                          StatusInternalServerError)
          | None => Done OK
          end)
    end.
Proof.
  induction comments as [|comment comments IH]; [done|].
  unfold first_own. simpl. case_decide.
  - by rewrite bool_decide_true.
  - rewrite bool_decide_false by done. apply IH.
Qed.

Lemma run_ListComments owner repo number next faults store :
  run listing (ListComments owner repo number next) faults store =
    let result :=
      run listing (next match mjoin (head faults) with
                | None => inl (listing store owner repo number)
                | Some err => inr err
                end) (tail faults) store in
    (result.1.1, result.1.2, Listed owner repo number :: result.2).
Proof. simpl. by destruct (run _ _ _ _) as [[? ?] ?]. Qed.

Lemma run_EditComment owner repo id body next faults store :
  run listing (EditComment owner repo id body next) faults store =
    let result :=
      run listing (next (mjoin (head faults))) (tail faults)
          (if mjoin (head faults) is None
           then edit_comment store owner repo id body else store) in
    (result.1.1, result.1.2, Edited owner repo id body :: result.2).
Proof. simpl. by destruct (run _ _ _ _) as [[? ?] ?]. Qed.

Lemma reconciled_quiet faults store :
  reconciled listing (refresh_report comment_String order now) faults store [] store.
Proof.
  split_and!.
  - by intros ? ? ? ? ?%elem_of_nil.
  - by left.
  - by intros ? ? ? ?%elem_of_nil.
Qed.

(** C3: on a "created" notification the handler never creates a comment
    and edits at most one, whatever the service answers to the listing.  It
    makes no call at all, or only lists the comments, or lists them and
    then edits one comment: the first of the listed comments, in the order
    of the answer, written by the engine's own identity, whose body becomes
    the fresh report.  When the answer holds no such comment, nothing is
    created or edited and the comments kept by the service are unchanged. *)
Theorem refresh_edits_first_own_comment
    (body : string) (e : Event) (faults : list (option string))
    (store : list Posted) :
  json_Unmarshal body = Some e →
  Action e = "created" →
  (∀ owner repo number text,
     Created owner repo number text ∉
       (run listing (handler' (Some body)) faults store).2) ∧
  (((run listing (handler' (Some body)) faults store).2 = [] ∧
    (run listing (handler' (Some body)) faults store).1.2 = store) ∨
   (∃ owner repo number,
      (run listing (handler' (Some body)) faults store).2 =
        [Listed owner repo number] ∧
      (run listing (handler' (Some body)) faults store).1.2 = store ∧
      (is_Some (mjoin (head faults)) ∨
       first_own (listing store owner repo number) = None)) ∨
   (∃ owner repo number comment,
      first_own (listing store owner repo number) = Some comment ∧
      (run listing (handler' (Some body)) faults store).2 =
        [Listed owner repo number;
         Edited owner repo (ID comment)
           (refresh_report comment_String order now
              (listing store owner repo number))] ∧
      ((run listing (handler' (Some body)) faults store).1.2 =
         edit_comment store owner repo (ID comment)
           (refresh_report comment_String order now
              (listing store owner repo number)) ∨
       (run listing (handler' (Some body)) faults store).1.2 = store))) ∧
  (∀ owner repo number,
     Listed owner repo number ∈
       (run listing (handler' (Some body)) faults store).2 →
     first_own (listing store owner repo number) = None →
     (run listing (handler' (Some body)) faults store).2 =
       [Listed owner repo number] ∧
     (run listing (handler' (Some body)) faults store).1.2 = store).
Proof.
  intros Hbody Hact.
  change (reconciled listing (refresh_report comment_String order now) faults store
            (run listing (handler' (Some body)) faults store).2
            (run listing (handler' (Some body)) faults store).1.2).
  rewrite (handler_decoded _ _ Hbody). unfold handle, deref.
  destruct (Sender e) as [sender|]; [|apply reconciled_quiet].
  destruct (decide (Login sender = githubUser)); [apply reconciled_quiet|].
  rewrite Hact. simpl.
  destruct (Event_Repository e) as [repository|]; [|apply reconciled_quiet].
  destruct (Owner repository) as [owner|]; [|apply reconciled_quiet].
  destruct (Event_Issue e) as [issue|]; [|apply reconciled_quiet].
  rewrite run_ListComments. cbv zeta.
  destruct (mjoin (head faults)) as [err|] eqn:Hfault.
  { rewrite run_Done. simpl. split_and!.
    - intros ? ? ? ? Hin. by apply list_elem_of_singleton in Hin.
    - right; left. eexists _, _, _. split_and!; [done..|].
      left. rewrite Hfault. by eexists.
    - intros ? ? ? Hin _. apply list_elem_of_singleton in Hin. by simplify_eq. }
  rewrite edit_report_first_own.
  destruct (first_own (listing store (Login owner) (Name repository)
                         (Issue_Number issue))) as [comment|] eqn:Hown.
  - rewrite run_EditComment. cbv zeta.
    assert (Hend : ∃ reply,
      run listing match mjoin (head (tail faults)) with
          | Some err =>
              Done (Error ("Failed to update issue report: " +:+ err)
                          StatusInternalServerError)
          | None => Done OK
          end (tail (tail faults))
          (if mjoin (head (tail faults)) is None
           then edit_comment store (Login owner) (Name repository) (ID comment)
                  (refresh_report comment_String order now
                     (listing store (Login owner) (Name repository)
                        (Issue_Number issue)))
           else store) =
      (reply,
       if mjoin (head (tail faults)) is None
       then edit_comment store (Login owner) (Name repository) (ID comment)
              (refresh_report comment_String order now
                 (listing store (Login owner) (Name repository)
                    (Issue_Number issue)))
       else store, [])).
    { destruct (mjoin (head (tail faults))); by eexists. }
    destruct Hend as [reply ->]. simpl. split_and!.
    + intros ? ? ? ? Hin. apply elem_of_cons in Hin as [?|Hin]; [done|].
      by apply list_elem_of_singleton in Hin.
    + right; right. eexists _, _, _, comment. split_and!; [done..|].
      destruct (mjoin (head (tail faults))); [by right | by left].
    + intros ? ? ? Hin Hnone. apply elem_of_cons in Hin as [Hin|Hin].
      * by simplify_eq.
      * by apply list_elem_of_singleton in Hin.
  - rewrite run_Done. simpl. split_and!.
    + intros ? ? ? ? Hin. by apply list_elem_of_singleton in Hin.
    + right; left. eexists _, _, _. split_and!; [done..|]. by right.
    + intros ? ? ? Hin _. apply list_elem_of_singleton in Hin. by simplify_eq.
Qed.

End HandlerFacts.


(** ** The theorems at sample inputs *)

(** The claim of C4 fails as stated: a notification with the unsupported
    action "deleted" sent by the engine's own identity is answered with a
    plain success, not with a client error. *)
Lemma unsupported_action_from_engine_accepted :
  Action own_deleted_event ≠ "opened" ∧
  Action own_deleted_event ≠ "created" ∧
  handler sample_String (decode_as own_deleted_event) canonical_order
          sample_now (Some "payload") = Done OK.
Proof. by split_and!. Qed.

Lemma unsupported_action_rejected_witness :
  handler sample_String (decode_as deleted_event) canonical_order
          sample_now (Some "payload") =
    Done (Error "Non-supported action" StatusMethodNotAllowed).
Proof.
  assert (Ho : Action deleted_event ≠ "opened") by done.
  assert (Hc : Action deleted_event ≠ "created") by done.
  apply (proj1 (proj2 (unsupported_action_rejected sample_String
           (decode_as deleted_event) canonical_order sample_now
           thread_listing "payload" deleted_event eq_refl Ho Hc)) {| Login := "alice" |});
    done.
Defined.

(** The claim of C10 fails as stated: an "opened" notification without
    issue and pull request sent by the engine's own identity is dropped
    before any comment is created. *)
Lemma bare_opened_from_engine_creates_nothing :
  Action own_bare_opened_event = "opened" ∧
  Event_Issue own_bare_opened_event = None ∧
  Event_PullRequest own_bare_opened_event = None ∧
  run thread_listing (handler sample_String (decode_as own_bare_opened_event)
               canonical_order sample_now (Some "payload")) [] [] =
    (OK, [], []).
Proof. by split_and!. Qed.

Lemma opened_without_payload_targets_zero_witness :
  (run thread_listing (handler sample_String (decode_as bare_opened_event) canonical_order
                sample_now (Some "payload")) [] []).2 =
    [Created "karalabe" "robotally" 0 (status "" [] [] [] sample_now)].
Proof.
  assert (Hother : Login {| Login := "alice" |} ≠ githubUser) by done.
  apply (proj2 (opened_without_payload_targets_zero sample_String
           (decode_as bare_opened_event) canonical_order sample_now
           thread_listing "payload" bare_opened_event {| Login := "alice" |}
           {| Login := "karalabe" |} sample_repository
           eq_refl eq_refl eq_refl eq_refl eq_refl Hother eq_refl eq_refl)).
Defined.

Lemma refresh_edits_first_own_comment_witness :
  Action created_event = "created" ∧
  reconciled thread_listing
    (refresh_report sample_String canonical_order sample_now)
    [] sample_store
    (run thread_listing
         (handler sample_String (decode_as created_event) canonical_order
                  sample_now (Some "payload")) [] sample_store).2
    (run thread_listing
         (handler sample_String (decode_as created_event) canonical_order
                  sample_now (Some "payload")) [] sample_store).1.2.
Proof.
  split; [reflexivity|].
  exact (refresh_edits_first_own_comment sample_String
           (decode_as created_event) canonical_order sample_now
           thread_listing "payload" created_event [] sample_store eq_refl eq_refl).
Defined.

Lemma both_tokens_vote_approve_witness :
  (aggregate sample_String (sample_history ++ [both_tokens_comment])).1
    !! "carol" = Some true.
Proof.
  assert (Hother : User_Login both_tokens_comment ≠ githubUser) by done.
  apply (both_tokens_vote_approve sample_String sample_history
           both_tokens_comment Hother eq_refl eq_refl).
  exists ("github.IssueComment{ID:4, Body:" +:+ dquote),
         (dquote +:+ ", User:github.User{Login:" +:+ dquote +:+ "carol"
            +:+ dquote +:+ "}}").
  reflexivity.
Defined.

(** * Further properties *)

(** ** The aggregator: who voted, who reacted *)

Section AggregatorTallies.

Variable comment_String : IssueComment → string.

Lemma tally_emoji_reacted login reactions emoji code user :
  reacted (tally_emoji login reactions emoji) code user ↔
    reacted reactions code user ∨
    (user = login ∧ code = emoji ∧ disabled_at emoji = false).
Proof.
  unfold tally_emoji, reacted.
  destruct (disabled_at emoji) eqn:Hd; simpl; [naive_solver|].
  destruct (decide (emoji = code)) as [->|Hne].
  - rewrite lookup_insert_eq. split.
    + intros (users & [= <-] & Hin).
      apply elem_of_union in Hin as [Hin%elem_of_singleton|Hin]; [by right|].
      left. destruct (reactions !! code); [by eexists | set_solver].
    + intros [(users & Hcode & Hin)|(-> & _ & _)]; eexists; split; try done.
      * rewrite Hcode. set_solver.
      * set_solver.
  - rewrite lookup_insert_ne by done. naive_solver.
Qed.

Lemma foldl_tally_reacted login codes reactions code user :
  reacted (foldl (tally_emoji login) reactions codes) code user ↔
    reacted reactions code user ∨
    (user = login ∧ code ∈ codes ∧ disabled_at code = false).
Proof.
  revert reactions; induction codes as [|emoji codes IH]; intros reactions.
  - simpl. split; [by left|]. intros [?|(_ & ?%elem_of_nil & _)]; done.
  - simpl. rewrite IH, tally_emoji_reacted, elem_of_cons. naive_solver.
Qed.

Lemma aggregate_reacted (comments : list IssueComment) (code user : string) :
  reacted (aggregate comment_String comments).2 code user ↔
    ∃ comment, comment ∈ comments ∧ User_Login comment = user ∧
               user ≠ githubUser ∧
               code ∈ FindAllString (comment_String comment).
Proof.
  induction comments as [|c comments IH] using rev_ind.
  - unfold aggregate, reacted. simpl. split.
    + intros (? & H & _). by rewrite lookup_empty in H.
    + intros (? & ?%elem_of_nil & _). done.
  - rewrite aggregate_snoc. unfold aggregate_step.
    destruct (decide (User_Login c = githubUser)) as [Hown|Hother].
    + rewrite IH. split.
      * intros (c' & Hin & ?). exists c'. split; [|done].
        apply elem_of_app. by left.
      * intros (c' & [Hin|Hin%list_elem_of_singleton]%elem_of_app & Hu & Hne & ?).
        -- by exists c'.
        -- subst. congruence.
    + simpl. rewrite foldl_tally_reacted, IH. split.
      * intros [(c' & Hin & ?)|(-> & Hin & _)].
        -- exists c'. split; [|done]. apply elem_of_app. by left.
        -- exists c. split_and!; try done. apply elem_of_app. right. by left.
      * intros (c' & [Hin|Hin%list_elem_of_singleton]%elem_of_app & Hu & Hne & Hcode).
        -- left. by exists c'.
        -- subst c'. right. split_and!; try done.
           by apply emoji_code_enabled, (FindAllString_code _ _ Hcode).
Qed.


(** X2: the reaction mapping does not depend on the order of the comments:
    two histories holding the same comments aggregate to the same reaction
    mapping. *)
Theorem reactions_independent_of_comment_order
    (comments comments' : list IssueComment) :
  comments ≡ₚ comments' →
  (aggregate comment_String comments).2 =
    (aggregate comment_String comments').2.
Proof.
  intros Hperm.
  assert (Hsame : ∀ code user,
    reacted (aggregate comment_String comments).2 code user ↔
    reacted (aggregate comment_String comments').2 code user).
  { intros code user. rewrite !aggregate_reacted.
    by setoid_rewrite Hperm. }
  apply map_eq. intros code.
  destruct ((aggregate comment_String comments).2 !! code) as [X|] eqn:HX;
    destruct ((aggregate comment_String comments').2 !! code) as [X'|] eqn:HX';
    [f_equal | exfalso..| done].
  - apply set_eq. intros user. split; intros Hin.
    + destruct (proj1 (Hsame code user)) as (? & ? & ?); [by exists X|].
      congruence.
    + destruct (proj2 (Hsame code user)) as (? & ? & ?); [by exists X'|].
      congruence.
  - pose proof (aggregate_inhabited _ _ _ _ HX) as Hne.
    apply set_choose_L in Hne as [user Hin].
    destruct (proj1 (Hsame code user)) as (? & ? & ?); [by exists X|].
    congruence.
  - pose proof (aggregate_inhabited _ _ _ _ HX') as Hne.
    apply set_choose_L in Hne as [user Hin].
    destruct (proj2 (Hsame code user)) as (? & ? & ?); [by exists X'|].
    congruence.
Qed.

(** X3: every code of the reaction mapping has at least one user, and it is
    a code of the pattern that is not switched off by the [disabled] table. *)
Theorem reaction_codes_are_used (comments : list IssueComment)
    (code : string) (users : gset string) :
  (aggregate comment_String comments).2 !! code = Some users →
  (∃ user, user ∈ users) ∧ emoji_code code ∧ disabled_at code = false.
Proof.
  intros Hcode.
  pose proof (aggregate_inhabited _ _ _ _ Hcode) as Hne.
  apply set_choose_L in Hne as [user Hin]. split; [by exists user|].
  assert (Hr : reacted (aggregate comment_String comments).2 code user)
    by (by exists users).
  apply aggregate_reacted in Hr as (c & _ & _ & _ & Hfound).
  apply FindAllString_code in Hfound. split; [done|].
  by apply emoji_code_enabled.
Qed.

Lemma tally_vote_lookup (votes : gmap string bool) (comment : IssueComment)
    (user : string) :
  tally_vote comment_String votes comment !! user =
    if decide (User_Login comment = user) then
      if votes_in (comment_String comment)
      then Some (Contains (comment_String comment) ":+1:")
      else votes !! user
    else votes !! user.
Proof.
  unfold tally_vote, votes_in.
  destruct (Contains (comment_String comment) ":+1:") eqn:Hup; simpl.
  - case_decide; [subst; apply lookup_insert_eq | by apply lookup_insert_ne].
  - destruct (Contains (comment_String comment) ":-1:") eqn:Hdown; simpl.
    + case_decide; [subst; apply lookup_insert_eq | by apply lookup_insert_ne].
    + by case_decide.
Qed.

Lemma aggregate_step_vote acc (comment : IssueComment) (user : string) :
  (aggregate_step comment_String acc comment).1 !! user =
    if decide (User_Login comment = user ∧ user ≠ githubUser ∧
               votes_in (comment_String comment) = true)
    then Some (Contains (comment_String comment) ":+1:")
    else acc.1 !! user.
Proof.
  unfold aggregate_step.
  destruct (decide (User_Login comment = githubUser)) as [Hown|Hother].
  - rewrite decide_False; [done|]. intros (<- & ? & _). done.
  - simpl. rewrite tally_vote_lookup.
    destruct (decide (User_Login comment = user)) as [<-|Hne].
    + destruct (votes_in (comment_String comment)).
      * by rewrite decide_True.
      * rewrite decide_False; [done|]. by intros (_ & _ & ?).
    + rewrite decide_False; [done|]. by intros (? & _).
Qed.

(** X4: a user has a vote exactly when some comment of the history, written
    by that user and not by the engine's own identity, holds one of the two
    vote tokens; the engine's identity never has a vote. *)
Theorem voters_are_token_authors (comments : list IssueComment) (user : string) :
  (is_Some ((aggregate comment_String comments).1 !! user) ↔
     ∃ comment, comment ∈ comments ∧ User_Login comment = user ∧
                user ≠ githubUser ∧
                votes_in (comment_String comment) = true) ∧
  (aggregate comment_String comments).1 !! githubUser = None.
Proof.
  assert (Hiff : ∀ u,
    is_Some ((aggregate comment_String comments).1 !! u) ↔
    ∃ comment, comment ∈ comments ∧ User_Login comment = u ∧
               u ≠ githubUser ∧ votes_in (comment_String comment) = true).
  { intros u. induction comments as [|c comments IH] using rev_ind.
    - unfold aggregate. simpl. rewrite lookup_empty. split.
      + by intros [? ?].
      + intros (? & ?%elem_of_nil & _). done.
    - rewrite aggregate_snoc, aggregate_step_vote. case_decide as Hc.
      + split; [|by eexists]. intros _. exists c.
        split; [|done]. apply elem_of_app. right. by left.
      + rewrite IH. split.
        * intros (c' & Hin & ?). exists c'. split; [|done].
          apply elem_of_app. by left.
        * intros (c' & [Hin|Hin%list_elem_of_singleton]%elem_of_app & ?);
            [by exists c' | subst; tauto]. }
  split; [apply Hiff|].
  apply eq_None_not_Some. intros (c & _ & _ & Hne & _)%Hiff. done.
Qed.

(** X5: the last vote of a user wins.  When a comment of another author
    than the engine holds a vote token and no later comment of the same
    author holds one, the user's vote is the one of that comment: approve
    when it holds the up token, reject otherwise, whatever came before. *)
Theorem last_vote_wins
    (before after : list IssueComment) (comment : IssueComment) :
  User_Login comment ≠ githubUser →
  votes_in (comment_String comment) = true →
  (∀ later, later ∈ after → User_Login later = User_Login comment →
            votes_in (comment_String later) = false) →
  (aggregate comment_String (before ++ comment :: after)).1
    !! User_Login comment =
    Some (Contains (comment_String comment) ":+1:").
Proof.
  intros Hother Hvote. induction after as [|c after IH] using rev_ind.
  - intros _. rewrite aggregate_snoc, aggregate_step_vote.
    by rewrite decide_True.
  - intros Hlater.
    replace (before ++ comment :: after ++ [c])
      with ((before ++ comment :: after) ++ [c])
      by (by rewrite <- app_assoc).
    rewrite aggregate_snoc, aggregate_step_vote. case_decide as Hc.
    + destruct Hc as (Hlogin & _ & Hin). rewrite Hlater in Hin; [done| |done].
      apply elem_of_app. right. by left.
    + apply IH. intros later Hin. apply Hlater, elem_of_app. by left.
Qed.

End AggregatorTallies.


(** ** The scanner *)

Lemma prefix_substring (k : nat) (s : string) :
  String.prefix (String.substring 0 k s) s = true.
Proof.
  revert k; induction s as [|a s IH]; intros [|k]; simpl; try done.
  destruct (ascii_dec a a); [apply IH | done].
Qed.

Lemma find_all_occurs (s : string) (skip : nat) (code : string) :
  code ∈ find_all skip s → Contains s code = true.
Proof.
  revert skip; induction s as [|c rest IH]; intros skip.
  - by intros ?%elem_of_nil.
  - rewrite find_all_cons, Contains_cons.
    assert (Hrest : ∀ k, code ∈ find_all k rest →
              String.prefix code (String c rest) || Contains rest code = true).
    { intros k Hin. rewrite (IH _ Hin). apply orb_true_r. }
    destruct skip as [|k]; [|apply Hrest].
    destruct (match_here (String c rest)) as [n|]; [|apply Hrest].
    intros [->|Hin]%elem_of_cons; [|by eapply Hrest].
    by rewrite prefix_substring.
Qed.

(** X6: every code the scanner extracts from a text is a piece of that text
    and belongs to the pattern (a colon, one or more of [a-z0-9_], a
    colon). *)
Theorem extracted_codes_occur_in_text (text code : string) :
  code ∈ FindAllString text →
  Contains text code = true ∧ emoji_code code.
Proof.
  intros Hin. split; [by eapply find_all_occurs | by eapply find_all_code].
Qed.

Lemma extracted_codes_occur_in_text_witness :
  ":tada:" ∈ FindAllString "nice :tada: !" ∧
  Contains "nice :tada: !" ":tada:" = true.
Proof.
  assert (Hin : ":tada:" ∈ FindAllString "nice :tada: !") by (by left).
  split; [exact Hin|]. apply (extracted_codes_occur_in_text _ _ Hin).
Defined.

(** X7: a code standing at the head of the text is extracted, and the scan
    resumes right after its closing colon: that colon is not reused as the
    opening colon of a following code. *)
Theorem code_at_head_is_extracted (run rest : string) :
  run ≠ "" →
  Forall (λ c, emoji_char c = true) (list_ascii_of_string run) →
  FindAllString (":" +:+ run +:+ ":" +:+ rest) =
    (":" +:+ run +:+ ":") :: FindAllString rest.
Proof. apply FindAllString_code_first. Qed.

Lemma code_at_head_is_extracted_witness :
  FindAllString (":" +:+ "a" +:+ ":" +:+ "b:") = [":a:"].
Proof.
  apply (code_at_head_is_extracted "a" "b:"); [done|].
  by repeat constructor.
Defined.

(** X8: the scanner misses no text that holds a code: when a code of the
    pattern occurs anywhere in the text, at least one code is extracted. *)
Theorem text_with_code_yields_reaction (pre run post : string) :
  run ≠ "" →
  Forall (λ c, emoji_char c = true) (list_ascii_of_string run) →
  FindAllString (pre +:+ ":" +:+ run +:+ ":" +:+ post) ≠ [].
Proof.
  intros Hne Hrun. induction pre as [|c pre IH].
  - change ("" +:+ ":" +:+ run +:+ ":" +:+ post)
      with (":" +:+ run +:+ ":" +:+ post).
    by rewrite FindAllString_code_first.
  - rewrite append_cons. unfold FindAllString. rewrite find_all_cons.
    by destruct (match_here _).
Qed.

Lemma text_with_code_yields_reaction_witness :
  FindAllString ("so " +:+ ":" +:+ "b_2" +:+ ":" +:+ " it is") ≠ [].
Proof.
  apply (text_with_code_yields_reaction "so " "b_2" " it is"); [done|].
  by repeat constructor.
Defined.

(** ** The vote table and the reaction table *)

Lemma filter_votes_length (votes : list (string * bool)) :
  length (filter approves votes) + length (filter rejects votes) =
    length votes.
Proof.
  induction votes as [|[user yes] votes IH]; [done|].
  rewrite !filter_cons. unfold approves at 1, rejects at 1.
  destruct yes; simpl; lia.
Qed.

Lemma NoDup_mentions (votes : gmap string bool) (visit : list (string * bool))
    (P : string * bool → Prop) `{∀ vote, Decision (P vote)} :
  visits_votes votes visit → NoDup (mention <$> (filter P visit).*1).
Proof.
  intros Hvisit. apply (NoDup_fmap_2 _).
  assert (Hall : NoDup visit.*1).
  { unfold visits_votes in Hvisit. rewrite Hvisit.
    apply NoDup_fst_map_to_list. }
  clear Hvisit. induction visit as [|vote visit IH]; [constructor|].
  rewrite fmap_cons in Hall. apply NoDup_cons in Hall as [Hfresh Hall].
  rewrite filter_cons. case_decide; [|by apply IH].
  rewrite fmap_cons. apply NoDup_cons. split; [|by apply IH].
  intros (vote' & Heq & [_ Hin]%list_elem_of_filter)%list_elem_of_fmap.
  apply Hfresh, list_elem_of_fmap. by exists vote'.
Qed.

(** X9: the two counts of the vote table add up to the number of users of
    the vote mapping, and neither list of reviewers names a user twice. *)
Theorem vote_counts_add_up
    (votes : gmap string bool) (visit : list (string * bool)) :
  visits_votes votes visit →
  length (up_list visit) + length (down_list visit) = size votes ∧
  NoDup (up_list visit) ∧ NoDup (down_list visit).
Proof.
  intros Hvisit. unfold up_list, down_list.
  rewrite !sort_Strings_perm, collect_votes_filter. simpl.
  split_and!.
  - rewrite !length_fmap, filter_votes_length.
    unfold visits_votes in Hvisit. by rewrite Hvisit, length_map_to_list.
  - by eapply NoDup_mentions.
  - by eapply NoDup_mentions.
Qed.

Lemma vote_counts_add_up_witness :
  length (up_list (map_to_list sample_votes)) +
    length (down_list (map_to_list sample_votes)) = size sample_votes.
Proof.
  assert (H : visits_votes sample_votes (map_to_list sample_votes))
    by (unfold visits_votes; reflexivity).
  apply (vote_counts_add_up _ _ H).
Defined.

Lemma gathered_lookup_Some (emojis : gmap string (gset string))
    (code : string) (users : list string) :
  gathered emojis !! code = Some users →
  ∃ X, emojis !! code = Some X ∧ X ≠ ∅ ∧
       users = sort_Strings (mention <$> elements X).
Proof.
  unfold gathered. rewrite lookup_omap.
  destruct (emojis !! code) as [X|]; simpl; [|done].
  destruct (elements X) as [|u us] eqn:Hel; [done|].
  intros [= <-]. exists X. split_and!; [done| |by rewrite Hel].
  intros ->. by rewrite elements_empty in Hel.
Qed.

Lemma gathered_lookup_used (emojis : gmap string (gset string))
    (code : string) (X : gset string) :
  emojis !! code = Some X → X ≠ ∅ → is_Some (gathered emojis !! code).
Proof.
  intros Hcode Hne. unfold gathered. rewrite lookup_omap, Hcode. simpl.
  destruct (elements X) as [|u us] eqn:Hel; [|by eexists].
  by apply elements_empty_inv, leibniz_equiv in Hel.
Qed.

(** X10: the reaction table has exactly one row for every code of the
    reaction mapping that has a user, and the users of a row are the sorted
    mentions of the users recorded for its code; the loops that reorder
    the rows lose no code and repeat none. *)
Theorem reaction_rows_cover_codes
    (emojis : gmap string (gset string))
    (visit : list (string * list string)) (order : list string) :
  visits_emojis emojis visit →
  visits_keys (gather visit) order →
  NoDup (reaction_rows visit order).*1 ∧
  (∀ code users, (code, users) ∈ reaction_rows visit order →
     ∃ X, emojis !! code = Some X ∧ X ≠ ∅ ∧
          users = sort_Strings (mention <$> elements X)) ∧
  (∀ code X, emojis !! code = Some X → X ≠ ∅ →
     code ∈ (reaction_rows visit order).*1).
Proof.
  intros Hvisit Horder. pose proof (gather_visits _ _ Hvisit) as Hg.
  unfold visits_keys in Horder. split_and!.
  - rewrite reaction_rows_codes, Horder. apply NoDup_fst_map_to_list.
  - intros code users Hrow. unfold reaction_rows in Hrow.
    apply list_elem_of_fmap in Hrow as (code' & [= -> ->] & Hin).
    rewrite order_by_frequency_perm, Horder in Hin.
    apply list_elem_of_fmap in Hin as ([code users] & -> & Hin).
    apply elem_of_map_to_list in Hin. simpl.
    unfold users_of. rewrite Hin. simpl. rewrite Hg in Hin.
    by apply gathered_lookup_Some.
  - intros code X Hcode Hne. rewrite reaction_rows_codes, Horder, Hg.
    destruct (gathered_lookup_used _ _ _ Hcode Hne) as [users Husers].
    apply list_elem_of_fmap. exists (code, users). split; [done|].
    by apply elem_of_map_to_list.
Qed.

Lemma reaction_rows_cover_codes_witness :
  NoDup (reaction_rows sample_visit [":tada:"; ":rocket:"]).*1.
Proof.
  assert (Hvisit : visits_emojis sample_reactions sample_visit)
    by (by apply sample_visit_valid).
  assert (Horder : visits_keys (gather sample_visit) [":tada:"; ":rocket:"])
    by (by apply sample_order_valid).
  apply (reaction_rows_cover_codes _ _ _ Hvisit Horder).
Defined.

Lemma compare_swap_idle reactions i (emojis : list string) (first : string)
    (js : list nat) :
  (∀ j, j ∈ js →
        count reactions (default "" (emojis !! (i + 1 + j))) ≤
          count reactions first) →
  foldl (compare_swap reactions i) (emojis, first) js = (emojis, first).
Proof.
  induction js as [|j js IH]; [done|]. intros Hle. simpl.
  unfold compare_swap at 2. simpl.
  rewrite (proj2 (Nat.ltb_ge _ _)) by (apply Hle; by left).
  apply IH. intros j' Hj'. apply Hle. by right.
Qed.

Lemma order_pass_idle reactions (emojis : list string) (i : nat) :
  (∀ j k a b, j < k → emojis !! j = Some a → emojis !! k = Some b →
              count reactions b ≤ count reactions a) →
  order_pass reactions emojis i = emojis.
Proof.
  intros Hdesc. unfold order_pass. rewrite compare_swap_idle; [done|].
  intros j Hj%elem_of_seq.
  destruct (emojis !! i) as [a|] eqn:Ha.
  - destruct (emojis !! (i + 1 + j)) as [b|] eqn:Hb; simpl.
    + apply (Hdesc i (i + 1 + j)); [lia|done..].
    + apply lookup_ge_None in Hb. lia.
  - apply lookup_ge_None in Ha. lia.
Qed.

(** X11: when the runtime visits the codes in an order that is already
    descending in user count, the reordering loops leave that order
    untouched, so the rows of the table are in descending order. *)
Theorem descending_visit_is_kept
    (emojis : list (string * list string)) (order : list string) :
  (∀ j k a b, j < k → order !! j = Some a → order !! k = Some b →
              count (gather emojis) b ≤ count (gather emojis) a) →
  (reaction_rows emojis order).*1 = order ∧
  descending (reaction_rows emojis order).
Proof.
  intros Hdesc.
  assert (Hsame : order_by_frequency (gather emojis) order = order).
  { unfold order_by_frequency. generalize (seq 0 (length order)).
    intros passes. induction passes as [|i passes IH]; [done|].
    simpl. by rewrite order_pass_idle. }
  unfold reaction_rows. rewrite Hsame. split.
  - rewrite <- list_fmap_compose. apply list_fmap_id.
  - intros k earlier later. rewrite !list_lookup_fmap.
    destruct (order !! k) as [a|] eqn:Ha; [|done].
    destruct (order !! S k) as [b|] eqn:Hb; [|done].
    intros [= <-] [= <-]. simpl. apply (Hdesc k (S k)); [lia|done..].
Qed.

Lemma descending_visit_is_kept_witness :
  descending (reaction_rows sample_visit [":rocket:"; ":tada:"]).
Proof.
  apply (descending_visit_is_kept sample_visit [":rocket:"; ":tada:"]).
  intros j k a b Hlt Ha Hb.
  destruct j as [|[|j]], k as [|[|k]]; simpl in *; try lia; simplify_eq.
  unfold count, users_of. rewrite sample_gather.
  rewrite lookup_insert_eq, lookup_insert_ne, lookup_insert_eq by done.
  simpl. lia.
Defined.

(** ** The warning banner *)

Lemma prefix_app (p s : string) : String.prefix p (p +:+ s) = true.
Proof.
  induction p as [|a p IH]; [by destruct s|].
  rewrite append_cons. simpl. destruct (ascii_dec a a); [apply IH | done].
Qed.

Lemma string_drop_app (p s : string) : string_drop (String.length p) (p +:+ s) = s.
Proof.
  induction p as [|a p IH]; [by destruct s|]. by rewrite append_cons.
Qed.

Lemma first_line_app (a b : string) :
  first_line a = a → first_line (a +:+ b) = a +:+ first_line b.
Proof.
  induction a as [|c a IH]; [done|]. rewrite append_cons. simpl.
  destruct (Ascii.eqb c (ascii_of_nat 10)); [done|].
  intros [= Ha]. by rewrite IH.
Qed.

Lemma before_last_app (closing line : string) :
  before_last closing closing = Some "" →
  before_last closing (line +:+ closing) = Some line.
Proof.
  intros Hbase. induction line as [|c line IH]; [done|].
  rewrite append_cons. simpl. by rewrite IH.
Qed.

Lemma find_warning_unfold (s : string) :
  find_warning s =
    match (if String.prefix ":exclamation: " s
           then before_last " :exclamation:" (first_line (string_drop 14 s))
           else None) with
    | Some group => Some group
    | None =>
        match s with
        | String _ s' => find_warning s'
        | EmptyString => None
        end
    end.
Proof. by destruct s. Qed.

Lemma status_banner (warning : string) (votes : list (string * bool))
    (emojis : list (string * list string)) (order : list string) (now : string) :
  warning ≠ "" →
  ∃ rest, status warning votes emojis order now =
    ":exclamation: " +:+ (warning +:+ " :exclamation:") +:+ nl +:+ rest.
Proof.
  intros Hne. unfold status.
  assert ((0 <? String.length warning) = true) as ->
    by (destruct warning; [done | by apply Nat.ltb_lt; simpl; lia]).
  destruct (0 <? length emojis); eexists; rewrite !append_assoc; reflexivity.
Qed.

Lemma find_warning_of_status
    (warning : string) (votes : list (string * bool))
    (emojis : list (string * list string)) (order : list string) (now : string) :
  warning ≠ "" →
  first_line warning = warning →
  find_warning (status warning votes emojis order now) = Some warning.
Proof.
  intros Hne Hline.
  destruct (status_banner warning votes emojis order now Hne) as [rest ->].
  rewrite find_warning_unfold, prefix_app.
  change 14 with (String.length ":exclamation: ").
  rewrite string_drop_app.
  rewrite first_line_app.
  - change (first_line (nl +:+ rest)) with "".
    rewrite append_empty_r. by rewrite before_last_app.
  - by rewrite first_line_app.
Qed.

(** X12: the warning survives a rendering: from a report rendered with a
    non-empty warning that has no line break, the warning pattern used on
    refresh recovers exactly that warning, whatever the votes, the
    reactions and the timestamp are. *)
Theorem warning_survives_rendering
    (warning : string) (votes : list (string * bool))
    (emojis : list (string * list string)) (order : list string) (now : string) :
  warning ≠ "" →
  first_line warning = warning →
  find_warning (status warning votes emojis order now) = Some warning.
Proof. apply find_warning_of_status. Qed.

Lemma warning_survives_rendering_witness :
  find_warning (status "Pull request against `master`"
                       (map_to_list sample_votes) sample_visit
                       [":tada:"; ":rocket:"] sample_now) =
    Some "Pull request against `master`".
Proof.
  apply (warning_survives_rendering "Pull request against `master`");
    reflexivity || done.
Defined.

(** X13: only the engine's own comments can carry a warning into the next
    report: the warning retained from a history is the one retained from
    the engine's comments alone, so other users cannot inject a banner by
    writing the warning pattern in their comments. *)
Theorem retained_warning_ignores_other_authors
    (comment_String : IssueComment → string) (comments : list IssueComment) :
  retained_warning comment_String comments =
    retained_warning comment_String
      (filter (λ c, User_Login c = githubUser) comments).
Proof.
  unfold retained_warning. generalize "".
  induction comments as [|c comments IH]; intros warning; [done|].
  rewrite filter_cons. simpl. case_decide; simpl.
  - rewrite decide_True by done. apply IH.
  - apply IH.
Qed.

(** ** Runs of the handler *)

Section HandlerRuns.

Variable comment_String : IssueComment → string.
Variable json_Unmarshal : string → option Event.
Variable order : MapOrder.
Variable now : string.
Variable listing : list Posted → string → string → Z → list IssueComment.

Lemma run_CreateComment owner repo number body next faults store :
  run listing (CreateComment owner repo number body next) faults store =
    let result :=
      run listing (next (mjoin (head faults))) (tail faults)
          (if mjoin (head faults) is None
           then create_comment store owner repo number body else store) in
    (result.1.1, result.1.2, Created owner repo number body :: result.2).
Proof. simpl. by destruct (run _ _ _ _) as [[? ?] ?]. Qed.

Lemma run_shape_quiet (reply : Reply) faults store :
  run_shape store (run listing (Done reply) faults store).
Proof. by left. Qed.

Lemma run_handle_shape (e : Event) faults store :
  run_shape store (run listing (handle comment_String order now e) faults store).
Proof.
  unfold handle, deref.
  destruct (Sender e) as [sender|]; [|apply run_shape_quiet].
  destruct (decide (Login sender = githubUser)); [apply run_shape_quiet|].
  destruct (negb (String.eqb (Action e) "opened")
            && negb (String.eqb (Action e) "created"));
    [apply run_shape_quiet|].
  destruct (String.eqb (Action e) "opened").
  - assert (Hcreate : ∀ number report,
      run_shape store
        (run listing (deref (Event_Repository e) (λ repository,
                deref (Owner repository) (λ owner,
                  CreateComment (Login owner) (Name repository) number report
                    (λ err,
                       match err with
                       | Some err =>
                           Done (Error ("Failed to comment on issue: " +:+ err)
                                       StatusInternalServerError)
                       | None => Done OK
                       end)))) faults store)).
    { intros number report. unfold deref.
      destruct (Event_Repository e) as [repository|]; [|apply run_shape_quiet].
      destruct (Owner repository) as [owner|]; [|apply run_shape_quiet].
      rewrite run_CreateComment. cbv zeta.
      destruct (mjoin (head faults)); rewrite run_Done; simpl;
        right; left; eexists _, _, _, _; (split; [done|]);
        [by right | by left]. }
    destruct (Event_PullRequest e) as [pr|]; [|apply Hcreate].
    destruct (Base pr) as [base|]; [apply Hcreate | apply run_shape_quiet].
  - destruct (Event_Repository e) as [repository|]; [|apply run_shape_quiet].
    destruct (Owner repository) as [owner|]; [|apply run_shape_quiet].
    destruct (Event_Issue e) as [issue|]; [|apply run_shape_quiet].
    rewrite run_ListComments. cbv zeta.
    destruct (mjoin (head faults)).
    { rewrite run_Done. simpl. right; right; left. by eexists _, _, _. }
    rewrite edit_report_first_own.
    destruct (first_own _) as [comment|].
    + rewrite run_EditComment. cbv zeta.
      destruct (mjoin (head (tail faults))); rewrite run_Done; simpl;
        right; right; right; eexists _, _, _, _, _; (split; [done|]);
        [by right | by left].
    + rewrite run_Done. simpl. right; right; left. by eexists _, _, _.
Qed.

Lemma run_handler_shape (body : option string) faults store :
  run_shape store
    (run listing (handler comment_String json_Unmarshal order now body) faults store).
Proof.
  unfold handler. destruct body as [body|]; [|apply run_shape_quiet].
  destruct (json_Unmarshal body); [apply run_handle_shape|apply run_shape_quiet].
Qed.

(** X14: whatever the request is, the handler calls the comment service at
    most twice and changes its comments at most once: a run is no call, one
    create, one listing, or one listing followed by one edit. *)
Theorem handler_writes_at_most_once (body : option string)
    (faults : list (option string)) (store : list Posted) :
  length (run listing (handler comment_String json_Unmarshal order now body)
              faults store).2 ≤ 2 ∧
  length (filter (λ call, is_write call = true)
            (run listing (handler comment_String json_Unmarshal order now body)
                 faults store).2) ≤ 1.
Proof.
  destruct (run_handler_shape body faults store)
    as [[-> _]|[(?&?&?&?& -> & _)|[(?&?&?& -> & _)|(?&?&?&?&?& -> & _)]]];
    simpl; lia.
Qed.

(** X15: a run that does not end with a plain success has changed nothing:
    whenever the reply is an error or the run panics, the comments kept by
    the service are those it kept before. *)
Theorem failed_runs_change_nothing (body : option string)
    (faults : list (option string)) (store : list Posted) :
  (run listing (handler comment_String json_Unmarshal order now body)
       faults store).1.1 ≠ OK →
  (run listing (handler comment_String json_Unmarshal order now body)
       faults store).1.2 = store.
Proof.
  intros Hfailed.
  destruct (run_handler_shape body faults store)
    as [[_ ?]|[(?&?&?&?& _ & [[? _]|[_ ?]])|[(?&?&?& _ & ?)
       |(?&?&?&?&?& _ & [[? _]|[_ ?]])]]]; done.
Qed.

End HandlerRuns.

(** ** The first report *)

Section HandlerScenarios.

Variable comment_String : IssueComment → string.
Variable json_Unmarshal : string → option Event.
Variable order : MapOrder.
Variable now : string.
Variable listing : list Posted → string → string → Z → list IssueComment.

Lemma create_failure_reply (err : option string) :
  ∃ reply,
    match err with
    | Some err =>
        Done (Error ("Failed to comment on issue: " +:+ err)
                    StatusInternalServerError)
    | None => Done OK
    end = Done reply.
Proof. destruct err; by eexists. Qed.

(** X17: for an "opened" notification of another sender than the engine
    that carries a pull request with its base (and a repository with its
    owner), the handler makes one call: it creates, on the thread numbered
    by the issue when there is one and by the pull request otherwise, the
    report of an empty tally, with the warning banner exactly when the base
    branch is "master"; from that report the refresh recovers the
    warning. *)
Theorem opened_pull_request_reports_base
    (body : string) (e : Event) (sender owner : User)
    (repository : Repository) (pr : PullRequest) (base : Endpoint)
    (faults : list (option string)) (store : list Posted) :
  json_Unmarshal body = Some e →
  Action e = "opened" →
  Sender e = Some sender → Login sender ≠ githubUser →
  Event_Repository e = Some repository → Owner repository = Some owner →
  Event_PullRequest e = Some pr → Base pr = Some base →
  (run listing (handler comment_String json_Unmarshal order now (Some body))
       faults store).2 =
    [Created (Login owner) (Name repository) (opened_number e)
       (status (if String.eqb (Branch base) "master"
                then master_warning else "") [] [] [] now)] ∧
  (Branch base = "master" →
   find_warning (status master_warning [] [] [] now) = Some master_warning).
Proof.
  intros Hbody Hact Hsender Hother Hrepo Howner Hpr Hbase. split.
  - rewrite (handler_decoded _ _ _ _ _ _ Hbody). unfold handle, deref.
    rewrite Hsender, decide_False, Hact by done. simpl.
    rewrite Hpr, Hbase, Hrepo, Howner. rewrite run_CreateComment. cbv zeta.
    destruct (create_failure_reply (mjoin (head faults))) as [reply ->].
    rewrite run_Done. simpl. unfold opened_number. by rewrite Hpr.
  - intros _. by apply find_warning_of_status.
Qed.

End HandlerScenarios.

(** ** The further properties at sample inputs *)

Lemma reactions_independent_of_comment_order_witness :
  (aggregate sample_String sample_history).2 =
    (aggregate sample_String (reverse sample_history)).2.
Proof.
  apply (reactions_independent_of_comment_order sample_String).
  symmetry. apply reverse_Permutation.
Defined.

Lemma reaction_codes_are_used_witness :
  (∃ user, user ∈ ({["alice"]} : gset string)) ∧
  emoji_code ":tada:" ∧ disabled_at ":tada:" = false.
Proof.
  apply (reaction_codes_are_used sample_String sample_history ":tada:").
  rewrite sample_history_reactions. apply lookup_insert_eq.
Defined.

Lemma last_vote_wins_witness :
  (aggregate sample_String
     (sample_history ++ reject_comment :: [later_comment])).1 !! "alice" =
    Some false.
Proof.
  assert (Hother : User_Login reject_comment ≠ githubUser) by done.
  apply (last_vote_wins sample_String sample_history [later_comment]
           reject_comment Hother eq_refl).
  intros later Hin%list_elem_of_singleton Hsame. by subst.
Defined.

Lemma failed_runs_change_nothing_witness :
  (run thread_listing (handler sample_String (decode_as created_event) canonical_order
                sample_now (Some "payload")) [Some "timeout"] sample_store).1.2 =
    sample_store.
Proof.
  apply (failed_runs_change_nothing sample_String (decode_as created_event)
           canonical_order sample_now thread_listing (Some "payload") [Some "timeout"]
           sample_store).
  by vm_compute.
Defined.

Lemma opened_pull_request_reports_base_witness :
  (run thread_listing (handler sample_String (decode_as pull_request_opened_event)
                canonical_order sample_now (Some "payload")) [] []).2 =
    [Created "karalabe" "robotally" 9
       (status master_warning [] [] [] sample_now)].
Proof.
  assert (Hother : Login {| Login := "alice" |} ≠ githubUser) by done.
  apply (proj1 (opened_pull_request_reports_base sample_String
           (decode_as pull_request_opened_event) canonical_order sample_now
           thread_listing "payload" pull_request_opened_event {| Login := "alice" |}
           {| Login := "karalabe" |} sample_repository
           {| PullRequest_Number := 9; Base := Some {| Branch := "master" |} |}
           {| Branch := "master" |} [] []
           eq_refl eq_refl eq_refl Hother eq_refl eq_refl eq_refl eq_refl)).
Defined.
